(** * whatsapp-web-service: the relay between one WhatsApp group and the
      order API, and the HTTP surface of [index.js]

    The development embeds the second listing of [src/index.js] (the one that
    keeps [clientReady] and [cachedGroupId]): the adapter event handlers, the
    Express routes and the Joi schema.  Strings are byte strings (the UTF-8
    form of the JavaScript string); the regular expressions of the program
    only tell ASCII digits, [d], [D], [/] and [+] from everything else, so
    they read the same on both forms. *)

From Stdlib Require Import Ascii String List Bool Arith Lia DecimalString.
From stdpp Require Import base option list strings gmap.

Set Warnings "-register-all".

Open Scope string_scope.

(** ** Characters and strings as JavaScript sees them *)

Module Js.

(** A JavaScript string is falsy exactly when it is empty. *)
Definition truthy (s : string) : bool :=
  match s with EmptyString => false | String _ _ => true end.

(** [a || b] on strings that may be [undefined] / [null]. *)
Definition or_else (a : option string) (b : string) : string :=
  match a with
  | Some s => if truthy s then s else b
  | None => b
  end.

(** [Boolean(x)] for a value that is [null] or a string. *)
Definition Boolean (x : option string) : bool :=
  match x with Some s => truthy s | None => false end.

(** The double quote, which string literals below never contain. *)
Definition dq : string := String (ascii_of_nat 34) EmptyString.

Definition quoted (s : string) : string := dq ++ s ++ dq.

End Js.

(** ** A backtracking matcher for the regular expressions of the program *)

Module Regex.

(** One-character matchers. *)
Inductive cclass :=
| CChar (c : ascii)            (* an escaped or plain literal: [\/], [\+] *)
| CSet (cs : list ascii)       (* a bracket set: [[dD]] *)
| CDigit                       (* [\d] *)
| CNonDigit.                   (* [\D] *)

Inductive regex :=
| RClass (cl : cclass)
| RSeq (r1 r2 : regex)
| ROpt (r : regex)             (* [r?], greedy *)
| RPlus (cl : cclass)          (* [cl+], greedy *)
| RGroup (r : regex)           (* a capturing group; no pattern here nests two *)
| RStart                       (* [^] *)
| REnd.                        (* [$], no [m] flag *)

Definition is_digit (c : ascii) : bool :=
  let n := nat_of_ascii c in (Nat.leb 48 n) && (Nat.leb n 57).

Fixpoint mem_ascii (c : ascii) (cs : list ascii) : bool :=
  match cs with
  | [] => false
  | x :: cs' => Ascii.eqb c x || mem_ascii c cs'
  end.

Definition class_mem (cl : cclass) (c : ascii) : bool :=
  match cl with
  | CChar x => Ascii.eqb c x
  | CSet cs => mem_ascii c cs
  | CDigit => is_digit c
  | CNonDigit => negb (is_digit c)
  end.

Section Matcher.
Context {R : Type}.

(** The rest of the pattern: position, remaining input, captures so far. *)
Definition kont := nat -> string -> list string -> option R.

(** Zero or more characters of a class, longest first. *)
Fixpoint star_class (cl : cclass) (pos : nat) (s : string)
         (k : nat -> string -> option R) : option R :=
  match s with
  | String c s' =>
      if class_mem cl c then
        match star_class cl (S pos) s' k with
        | Some x => Some x
        | None => k pos s
        end
      else k pos s
  | EmptyString => k pos s
  end.

Fixpoint rmatch (r : regex) (pos : nat) (s : string) (caps : list string)
         (k : kont) : option R :=
  match r with
  | RClass cl =>
      match s with
      | String c s' => if class_mem cl c then k (S pos) s' caps else None
      | EmptyString => None
      end
  | RSeq r1 r2 =>
      rmatch r1 pos s caps (fun p' s' caps' => rmatch r2 p' s' caps' k)
  | ROpt r1 =>
      match rmatch r1 pos s caps k with
      | Some x => Some x
      | None => k pos s caps
      end
  | RPlus cl =>
      match s with
      | String c s' =>
          if class_mem cl c
          then star_class cl (S pos) s' (fun p' s'' => k p' s'' caps)
          else None
      | EmptyString => None
      end
  | RGroup r1 =>
      rmatch r1 pos s caps
             (fun p' s' caps' => k p' s' (caps' ++ [substring 0 (p' - pos) s])%list)
  | RStart => if Nat.eqb pos 0 then k pos s caps else None
  | REnd =>
      match s with
      | EmptyString => k pos s caps
      | String _ _ => None
      end
  end.
End Matcher.

(** What the program reads of the result of [RegExp.prototype.exec] for a
    regex without the [g] flag: the matched text and the groups.  (The
    positions inside the matcher count bytes of the UTF-8 form; they are not
    [match.index], which counts UTF-16 units and which the program never
    reads.) *)
Record match_result := MatchResult {
  m_whole : string;         (* [match[0]] *)
  m_groups : list string    (* [match[1]], [match[2]], ... *)
}.

(** Try every start position, leftmost first. *)
Fixpoint exec_from (r : regex) (pos : nat) (s : string) : option match_result :=
  match rmatch r pos s []
               (fun p' _ caps => Some (MatchResult (substring 0 (p' - pos) s) caps)) with
  | Some m => Some m
  | None =>
      match s with
      | String _ s' => exec_from r (S pos) s'
      | EmptyString => None
      end
  end.

(** [str.match(re)] for a non-global [re]. *)
Definition str_match (r : regex) (s : string) : option match_result :=
  exec_from r 0 s.

(** [re.test(str)]. *)
Definition test (r : regex) (s : string) : bool :=
  match str_match r s with Some _ => true | None => false end.

(** [str.replace(/cl/g, repl)] for a pattern that is one character class:
    every matching character is replaced, the others are kept. *)
Fixpoint replace_class_g (cl : cclass) (repl : string) (s : string) : string :=
  match s with
  | EmptyString => EmptyString
  | String c s' =>
      if class_mem cl c then repl ++ replace_class_g cl repl s'
      else String c (replace_class_g cl repl s')
  end.

(** [match[i]] *)
Definition capture (m : match_result) (i : nat) : option string :=
  match i with
  | O => Some (m_whole m)
  | S j => nth_error (m_groups m) j
  end.

End Regex.

Import Regex.

(** ** The order extractor: [msg.body.match(/[dD]\/(\d+)/)] and [match[1]] *)

(** [/[dD]\/(\d+)/] *)
Definition order_re : regex :=
  RSeq (RClass (CSet ["d"; "D"]%char))
       (RSeq (RClass (CChar "/"%char)) (RGroup (RPlus CDigit))).

Definition extract_order (body : string) : option string :=
  match str_match order_re body with
  | Some m => capture m 1
  | None => None
  end.

(** ** Values crossing the boundary: JSON, errors, chats, messages *)

(** A parsed JSON value, as [express.json()] leaves it in [req.body].  The
    text of a number is kept as written; nothing below looks inside one. *)
Inductive jsval :=
| JNull
| JBool (b : bool)
| JNum (lit : string)
| JStr (s : string)
| JArr (items : list jsval)
| JObj (fields : gmap string jsval).

(** [req.body]: the parsed JSON, or [undefined] when [express.json()] has
    parsed nothing (a request without a JSON body, where the framework does
    not put an empty object in its place). *)
Inductive request_body :=
| NoBody
| Body (json : jsval).

Coercion Body : jsval >-> request_body.

(** [Object.keys]: the own keys of an object in the order of the engine
    (insertion order, index-like keys first).  The map of a [JObj] keeps the
    keys and not their order, so the order is left to the engine. *)
Class ObjectKeys := {
  keys_of : gmap string jsval -> list string;
  keys_of_own : forall o k, k ∈ keys_of o <-> is_Some (o !! k)
}.

(** A thrown value or rejection reason: [err.message] and, for an axios
    error that carries a response, [err.response.data.message]. *)
Record js_error := JsError {
  err_message : string;
  err_response_message : option string
}.

(** The [TypeError] of [const { number, groupTitle, message } = value] when
    [value] is [undefined] (the wording is the engine's). *)
Definition destructure_undefined : js_error :=
  JsError "Cannot destructure property 'number' of 'value' as it is undefined." None.

(** How an awaited call on the adapter or on the network ends. *)
Inductive outcome (A : Type) :=
| Resolved (a : A)
| Rejected (e : js_error).
Arguments Resolved {A} a.
Arguments Rejected {A} e.

(** A chat object of the adapter: [name], [id._serialized], [isGroup]. *)
Record chat := Chat {
  chat_name : string;
  chat_id : string;
  chat_isGroup : bool
}.

(** An inbound message: the fields the handler reads. *)
Record message := Message {
  msg_fromMe : bool;
  msg_body : string;
  msg_author : option string;
  msg_from : string;
  msg_timestamp : N
}.

(** The JSON body posted to the order API. *)
Record order_notification := OrderNotification {
  order_id : string;
  group : string;
  sender : string;
  message_text : string;
  timestamp : N
}.

(** What [res.send] / [res.json] emit, with the status set before. *)
Inductive response_body :=
| SendText (text : string)
| SendJson (j : jsval).

Record response := Response {
  status : nat;
  resp_body : response_body
}.

(** Everything a handler does that the outside can see or answer, in the
    order in which the handler does it. *)
Inductive effect :=
| ConsoleLog (args : list string)
| ConsoleWarn (args : list string)
| ConsoleError (args : list string)
| ToDataURL (qr : string)                              (* toDataURL(qr) *)
| GetChats                                             (* client.getChats() *)
| MsgGetChat                                           (* msg.getChat() *)
| ChatSendMessage (chatId : string) (text : string)    (* chat.sendMessage(text) *)
| ClientSendMessage (chatId : string) (content : option string)
                                                       (* client.sendMessage(id, content) *)
| AxiosPost (url : string) (payload : order_notification)
| ClientDestroy
| ClientInitialize
| SetTimeout (callback : list effect) (ms : nat)
| Respond (r : response).



(** ** The module-level variables *)

Record state := State {
  latestQR : option string;
  clientReady : bool;
  groupChatInstance : option chat;
  cachedGroupId : option string
}.

(** [let latestQR = null; let clientReady = false; ...] *)
Definition initial_state : state :=
  {| latestQR := None; clientReady := false;
     groupChatInstance := None; cachedGroupId := None |}.

(** ** Handlers as state transformers that emit effects and may throw *)

Module Handler.

Definition M (A : Type) : Type := state -> state * list effect * outcome A.

Definition ret {A} (a : A) : M A := fun st => (st, [], Resolved a).

Definition bind {A B} (m : M A) (f : A -> M B) : M B :=
  fun st =>
    match m st with
    | (st1, t1, Resolved a) =>
        match f a st1 with
        | (st2, t2, o) => (st2, (t1 ++ t2)%list, o)
        end
    | (st1, t1, Rejected e) => (st1, t1, Rejected e)
    end.

(** [try { m } catch (err) { h err }] *)
Definition try_catch {A} (m : M A) (h : js_error -> M A) : M A :=
  fun st =>
    match m st with
    | (st1, t1, Resolved a) => (st1, t1, Resolved a)
    | (st1, t1, Rejected e) =>
        match h e st1 with
        | (st2, t2, o) => (st2, (t1 ++ t2)%list, o)
        end
    end.

(** [throw e], or a statement that throws. *)
Definition throw {A} (e : js_error) : M A := fun st => (st, [], Rejected e).

Definition get : M state := fun st => (st, [], Resolved st).
Definition put (st' : state) : M unit := fun _ => (st', [], Resolved tt).
Definition emit (e : effect) : M unit := fun st => (st, [e], Resolved tt).

(** An awaited call: the request goes out, then its outcome comes back. *)
Definition await {A} (e : effect) (o : outcome A) : M A :=
  fun st => (st, [e], o).

Definition trace_of {A} (r : state * list effect * outcome A) : list effect :=
  snd (fst r).
Definition state_of {A} (r : state * list effect * outcome A) : state :=
  fst (fst r).
Definition outcome_of {A} (r : state * list effect * outcome A) : outcome A :=
  snd r.

End Handler.

Import Handler.

Declare Scope handler_scope.
Delimit Scope handler_scope with handler.
Notation "x <- m ;; k" := (bind m (fun x => k))
  (at level 100, m at next level, right associativity) : handler_scope.
Notation "m ;; k" := (bind m (fun _ => k))
  (at level 100, right associativity) : handler_scope.
Open Scope handler_scope.

(** ** The part of Joi that [msgSchema] uses *)

Module Joi.

(** Rules of a string schema, kept in the order in which they were added. *)
Inductive rule :=
| Pattern (source : string) (re : regex)
| Min (limit : nat).

Record string_schema := StringSchema {
  rules : list rule;
  presence_required : bool
}.

(** [Joi.string()], then the chained calls, innermost first. *)
Definition string_ : string_schema := StringSchema [] false.
Definition pattern (source : string) (re : regex) (sch : string_schema) :=
  StringSchema (rules sch ++ [Pattern source re])%list (presence_required sch).
Definition min (limit : nat) (sch : string_schema) :=
  StringSchema (rules sch ++ [Min limit])%list (presence_required sch).
Definition optional (sch : string_schema) := StringSchema (rules sch) false.
Definition required (sch : string_schema) := StringSchema (rules sch) true.

(** [Joi.object({ ... })] with its peer dependencies ([.xor(...)]). *)
Record object_schema := ObjectSchema {
  keys : list (string * string_schema);
  xors : list (list string)
}.
Definition object (ks : list (string * string_schema)) := ObjectSchema ks [].
Definition xor (peers : list string) (sch : object_schema) :=
  ObjectSchema (keys sch) (xors sch ++ [peers])%list.

Inductive error :=
| ObjectBase                                   (* object.base *)
| AnyRequired (key : string)                   (* any.required *)
| StringBase (key : string)                    (* string.base *)
| StringEmpty (key : string)                   (* string.empty *)
| StringPatternBase (key value source : string)  (* string.pattern.base *)
| StringMin (key : string) (limit : nat)       (* string.min *)
| ObjectUnknown (key : string)                 (* object.unknown *)
| ObjectMissing (peers : list string)          (* object.missing *)
| ObjectXor (peers : list string).             (* object.xor *)

Definition has_min_zero (sch : string_schema) : bool :=
  existsb (fun r => match r with Min 0 => true | _ => false end) (rules sch).

(** The first rule that the string breaks, if any.  Lengths are counted in
    bytes; the schema only asks for [min(1)], which is the same either way. *)
Fixpoint check_rules (key : string) (rs : list rule) (s : string) : option error :=
  match rs with
  | [] => None
  | Pattern source re :: rs' =>
      if Regex.test re s then check_rules key rs' s
      else Some (StringPatternBase key s source)
  | Min limit :: rs' =>
      if Nat.leb limit (String.length s) then check_rules key rs' s
      else Some (StringMin key limit)
  end.

(** One key of the object: [None] is [undefined] (the key is absent). *)
Definition validate_string (key : string) (sch : string_schema)
           (v : option jsval) : error + option string :=
  match v with
  | None =>
      if presence_required sch then inl (AnyRequired key) else inr None
  | Some (JStr s) =>
      if Js.truthy s then
        match check_rules key (rules sch) s with
        | Some e => inl e
        | None => inr (Some s)
        end
      else if has_min_zero sch then inr (Some s)
      else inl (StringEmpty key)
  | Some _ => inl (StringBase key)
  end.

(** Joi validates a shallow clone of the object, made with
    [Object.create(Object.getPrototypeOf(value))] and [Object.assign]:
    assigning the own key [__proto__] runs the setter of [Object.prototype],
    so the clone has no own key of that name, and when the value under it is
    an object, that object becomes the prototype of the clone. *)
Record cloned := Cloned {
  own : gmap string jsval;
  proto : option (gmap string jsval)
}.

Definition clone (o : gmap string jsval) : cloned :=
  {| own := delete "__proto__" o;
     proto := match o !! "__proto__" with
              | Some (JObj p) => Some p
              | _ => None
              end |}.

(** [value[key]] on the clone: the own key, else the key of the prototype.
    (For the keys of [msgSchema]; [Object.prototype] defines none of them.) *)
Definition read (c : cloned) (key : string) : option jsval :=
  match own c !! key with
  | Some v => Some v
  | None =>
      match proto c with
      | Some p => p !! key
      | None => None
      end
  end.

(** The declared keys in order; the first error stops ([abortEarly]). *)
Fixpoint validate_keys (ks : list (string * string_schema))
         (c : cloned) : error + gmap string string :=
  match ks with
  | [] => inr ∅
  | (key, sch) :: ks' =>
      match validate_string key sch (read c key) with
      | inl e => inl e
      | inr v =>
          match validate_keys ks' c with
          | inl e => inl e
          | inr value =>
              inr (match v with Some s => <[key := s]> value | None => value end)
          end
      end
  end.

(** [Object.keys] of the clone without the declared keys; Joi names the
    first of them. *)
Definition unknown_keys `{ObjectKeys} (ks : list (string * string_schema))
           (c : cloned) : list string :=
  filter (fun k => k ∉ ks.*1) (keys_of (own c)).

Definition present (c : cloned) (k : string) : bool :=
  match read c k with Some _ => true | None => false end.

Fixpoint check_xors (xs : list (list string)) (c : cloned) : option error :=
  match xs with
  | [] => None
  | peers :: xs' =>
      match List.filter (present c) peers with
      | [] => Some (ObjectMissing peers)
      | [_] => check_xors xs' c
      | _ :: _ :: _ => Some (ObjectXor peers)
      end
  end.

(** The [value] of a validation result. *)
Inductive validated :=
| Undefined
| Fields (fields : gmap string string).

(** [value.key] for a validated object; an [undefined] value has no field
    (the program throws where it reads one). *)
#[global] Instance validated_lookup : Lookup string string validated :=
  fun k v =>
    match v with
    | Fields m => m !! k
    | Undefined => None
    end.

(** [schema.validate(body)]: [inl] is [{ error }], [inr] is [{ value }].
    The schema is not [.required()], so [undefined] passes as it is. *)
Definition validate `{ObjectKeys} (sch : object_schema) (body : request_body)
  : error + validated :=
  match body with
  | NoBody => inr Undefined
  | Body (JObj o) =>
      let c := clone o in
      match validate_keys (keys sch) c with
      | inl e => inl e
      | inr value =>
          match unknown_keys (keys sch) c with
          | k :: _ => inl (ObjectUnknown k)
          | [] =>
              match check_xors (xors sch) c with
              | Some e => inl e
              | None => inr (Fields value)
              end
          end
      end
  | Body _ => inl ObjectBase
  end.

Fixpoint join (sep : string) (l : list string) : string :=
  match l with
  | [] => ""
  | [x] => x
  | x :: l' => x ++ sep ++ join sep l'
  end.

Definition show_nat (n : nat) : string :=
  NilEmpty.string_of_uint (Nat.to_uint n).

(** [error.message] *)
Definition message (e : error) : string :=
  match e with
  | ObjectBase => Js.quoted "value" ++ " must be of type object"
  | AnyRequired k => Js.quoted k ++ " is required"
  | StringBase k => Js.quoted k ++ " must be a string"
  | StringEmpty k => Js.quoted k ++ " is not allowed to be empty"
  | StringPatternBase k v src =>
      Js.quoted k ++ " with value " ++ Js.quoted v
        ++ " fails to match the required pattern: /" ++ src ++ "/"
  | StringMin k n =>
      Js.quoted k ++ " length must be at least " ++ show_nat n
        ++ " characters long"
  | ObjectUnknown k => Js.quoted k ++ " is not allowed"
  | ObjectMissing peers =>
      Js.quoted "value" ++ " must contain at least one of ["
        ++ join ", " peers ++ "]"
  | ObjectXor peers =>
      Js.quoted "value" ++ " contains a conflict between exclusive peers ["
        ++ join ", " peers ++ "]"
  end.

End Joi.

(** [/^\+?\d+$/] *)
Definition number_re : regex :=
  RSeq RStart (RSeq (ROpt (RClass (CChar "+"%char))) (RSeq (RPlus CDigit) REnd)).

(** [const msgSchema = Joi.object({ number, groupTitle, message }).xor(...)] *)
Definition msgSchema : Joi.object_schema :=
  Joi.xor ["number"; "groupTitle"]
    (Joi.object
       [ ("number", Joi.optional (Joi.pattern "^\+?\d+$" number_re Joi.string_));
         ("groupTitle", Joi.optional Joi.string_);
         ("message", Joi.required (Joi.min 1 Joi.string_)) ]).

(** The schemas of the three keys, by name. *)
Definition number_schema : Joi.string_schema :=
  Joi.optional (Joi.pattern "^\+?\d+$" number_re Joi.string_).
Definition groupTitle_schema : Joi.string_schema := Joi.optional Joi.string_.
Definition message_schema : Joi.string_schema := Joi.required (Joi.min 1 Joi.string_).

(** ** Configuration read from the process environment *)

Record environment := Environment {
  env_GROUP_NAME : option string;
  env_API_ENDPOINT : option string
}.

(** [process.env.GROUP_NAME || "WEB CUNGS"] *)
Definition GROUP_NAME (env : environment) : string :=
  Js.or_else (env_GROUP_NAME env) "WEB CUNGS".

(** [process.env.API_ENDPOINT || "http://localhost:8000/api/orders/mark-as-done"] *)
Definition API_ENDPOINT (env : environment) : string :=
  Js.or_else (env_API_ENDPOINT env) "http://localhost:8000/api/orders/mark-as-done".

(** ** Assignments to the module-level variables *)

Definition set_latestQR (v : option string) (st : state) : state :=
  {| latestQR := v; clientReady := clientReady st;
     groupChatInstance := groupChatInstance st; cachedGroupId := cachedGroupId st |}.

Definition set_clientReady (v : bool) (st : state) : state :=
  {| latestQR := latestQR st; clientReady := v;
     groupChatInstance := groupChatInstance st; cachedGroupId := cachedGroupId st |}.

Definition set_groupChatInstance (v : option chat) (st : state) : state :=
  {| latestQR := latestQR st; clientReady := clientReady st;
     groupChatInstance := v; cachedGroupId := cachedGroupId st |}.

Definition set_cachedGroupId (v : option string) (st : state) : state :=
  {| latestQR := latestQR st; clientReady := clientReady st;
     groupChatInstance := groupChatInstance st; cachedGroupId := v |}.

Definition assign (f : state -> state) : M unit :=
  st <- get ;; put (f st).

Definition respond (code : nat) (b : response_body) : M unit :=
  emit (Respond (Response code b)).

(** The answers of the outside world to the calls that the message handler
    awaits: [msg.getChat()], [axios.post(...)], [chat.sendMessage(...)]. *)
Record message_world := MessageWorld {
  w_chat : outcome chat;
  w_post : outcome unit;
  w_confirm : outcome unit
}.

(** What reaches the process: adapter events and HTTP requests, each with
    the outcomes of the calls its handler awaits.  A handler is run to its
    end before the next event is taken. *)
Inductive event :=
| Qr (qr : string) (dataUrl : outcome string)
| Ready (chats : outcome (list chat))
| AuthFailure (msg : string) (notified : outcome unit)
| Disconnected (reason : string) (notified : outcome unit)
| Incoming (msg : message) (w : message_world)
| GetQr
| GetHealth
| GetStatus (info : option jsval)
| PostSendMessage (body : request_body) (sent : outcome unit).

Definition newline : string := String (ascii_of_nat 10) EmptyString.

(** The page of [GET /qr], the template literal with [latestQR] filled in. *)
Definition qr_page (img : string) : string :=
  newline
  ++ "    <html>" ++ newline
  ++ "      <body style=" ++ Js.quoted "display:flex;justify-content:center;align-items:center;height:100vh;flex-direction:column;" ++ ">" ++ newline
  ++ "        <h2>Scan QR WhatsApp</h2>" ++ newline
  ++ "        <img src=" ++ Js.quoted img ++ " style=" ++ Js.quoted "width:300px;height:300px;" ++ " />" ++ newline
  ++ "      </body>" ++ newline
  ++ "    </html>" ++ newline
  ++ "  ".

Section Service.

Variable env : environment.

(** [String.prototype.toLowerCase], which follows the Unicode case tables. *)
Variable toLowerCase : string -> string.

Context `{ObjectKeys}.

(** *** Adapter events *)

(** [client.on("qr", async (qr) => ...)] *)
Definition on_qr (qr : string) (dataUrl : outcome string) : M unit :=
  img <- await (ToDataURL qr) dataUrl ;;
  assign (set_latestQR (Some img)) ;;
  emit (ConsoleLog ["[WA-BOT] QR code received. Scan via /qr"]).

(** [client.on("ready", async () => ...)] *)
Definition on_ready (chats : outcome (list chat)) : M unit :=
  assign (set_clientReady true) ;;
  emit (ConsoleLog ["[WA-BOT] WhatsApp client is ready"]) ;;
  try_catch
    (cs <- await GetChats chats ;;
     match List.find (fun c => String.eqb (chat_name c) (GROUP_NAME env)) cs with
     | Some group =>
         assign (set_groupChatInstance (Some group)) ;;
         assign (set_cachedGroupId (Some (chat_id group))) ;;
         emit (ConsoleLog ["[WA-BOT] Group " ++ Js.quoted (GROUP_NAME env)
                             ++ " found and cached"])
     | None =>
         emit (ConsoleWarn ["[WA-BOT] Group " ++ Js.quoted (GROUP_NAME env)
                              ++ " not found"])
     end)
    (fun e => emit (ConsoleError ["[WA-BOT] Error fetching group chats:";
                                  err_message e])).

(** [async function notifyGroup(text)], called without [await]: the send
    goes out at once, and what follows the [await] inside is handed back
    to run after the caller's own statements. *)
Definition notifyGroup (text : string) (notified : outcome unit) : M (M unit) :=
  st <- get ;;
  match groupChatInstance st with
  | Some g =>
      emit (ChatSendMessage (chat_id g) text) ;;
      ret (match notified with
           | Resolved _ => ret tt
           | Rejected e =>
               emit (ConsoleError ["[WA-BOT] Failed to notify group:";
                                   err_message e])
           end)
  | None => ret (ret tt)
  end.

(** [client.on("auth_failure", (msg) => ...)] *)
Definition on_auth_failure (msg : string) (notified : outcome unit) : M unit :=
  emit (ConsoleError ["[WA-BOT] AUTH FAILURE:"; msg]) ;;
  assign (set_clientReady false) ;;
  later <- notifyGroup "⚠️ Sesi WhatsApp berakhir. Silakan scan ulang QR Code." notified ;;
  emit ClientDestroy ;;
  emit ClientInitialize ;;
  later.

(** [client.on("disconnected", (reason) => ...)] *)
Definition on_disconnected (reason : string) (notified : outcome unit) : M unit :=
  emit (ConsoleWarn ["[WA-BOT] Disconnected:"; reason]) ;;
  assign (set_clientReady false) ;;
  later <- notifyGroup "⚠️ WhatsApp terputus. Mencoba menyambung kembali..." notified ;;
  emit (SetTimeout [ClientDestroy; ClientInitialize] 5000) ;;
  later.

(** *** The incoming message handler *)

(** The text sent back to the chat once the order API has accepted. *)
Definition confirmation (orderId : string) : string :=
  "✅ Order ID " ++ orderId ++ " telah diproses.".

Definition payload_of (orderId : string) (msg : message) : order_notification :=
  {| order_id := orderId;
     group := GROUP_NAME env;
     sender := Js.or_else (msg_author msg) (msg_from msg);
     message_text := msg_body msg;
     timestamp := msg_timestamp msg |}.

(** The inner [try { post; confirm } catch (err) { log }]. *)
Definition notify_order (c : chat) (orderId : string) (msg : message)
           (w : message_world) : M unit :=
  try_catch
    (await (AxiosPost (API_ENDPOINT env) (payload_of orderId msg)) (w_post w) ;;
     await (ChatSendMessage (chat_id c) (confirmation orderId)) (w_confirm w))
    (fun err =>
       emit (ConsoleError ["[WA-BOT] API Error:";
                           Js.or_else (err_response_message err) (err_message err)])).

(** From [const match = msg.body.match(...)] to the end of the outer [try]. *)
Definition relay_order (c : chat) (msg : message) (w : message_world) : M unit :=
  match extract_order (msg_body msg) with
  | None => ret tt
  | Some orderId =>
      emit (ConsoleLog ["→ Detected order ID: " ++ orderId]) ;;
      notify_order c orderId msg w
  end.

(** [client.on("message", async (msg) => ...)] *)
Definition on_message (msg : message) (w : message_world) : M unit :=
  try_catch
    (if msg_fromMe msg then ret tt
     else
       c <- await MsgGetChat (w_chat w) ;;
       if negb (chat_isGroup c) || negb (String.eqb (chat_name c) (GROUP_NAME env))
       then ret tt
       else relay_order c msg w)
    (fun err => emit (ConsoleError ["[WA-BOT] Message handler error:";
                                    err_message err])).

(** *** HTTP routes *)

(** [app.get("/qr", ...)] *)
Definition get_qr : M unit :=
  st <- get ;;
  if negb (Js.Boolean (latestQR st)) then respond 200 (SendText "QR belum tersedia")
  else respond 200 (SendText (qr_page (default "" (latestQR st)))).

(** [app.get("/health", ...)] *)
Definition get_health : M unit := respond 200 (SendText "OK").

(** [app.get("/status", ...)]; [info] is [client.info]. *)
Definition get_status (info : option jsval) : M unit :=
  st <- get ;;
  respond 200 (SendJson (JObj {[ "ready" := JBool (clientReady st);
                                 "groupCached" := JBool (Js.Boolean (cachedGroupId st));
                                 "info" := default JNull info ]})).

Definition error_json (text : string) : response_body :=
  SendJson (JObj {[ "success" := JBool false; "error" := JStr text ]}).

(** The [if (number) ... else if (...) ... else ...] that assigns [chatId];
    [None] is the branch that answers 404. *)
Definition resolve_target (st : state) (number groupTitle : option string)
  : option string :=
  if Js.Boolean number then
    let normalized := replace_class_g CNonDigit "" (default "" number) in
    Some (normalized ++ "@c.us")
  else if bool_decide (toLowerCase <$> groupTitle = Some (toLowerCase (GROUP_NAME env)))
          && Js.Boolean (cachedGroupId st)
  then cachedGroupId st
  else None.

(** [app.post("/send-message", async (req, res) => ...)] *)
Definition post_send_message (body : request_body) (sent : outcome unit) : M unit :=
  match Joi.validate msgSchema body with
  | inl error => respond 400 (error_json (Joi.message error))
  | inr value =>
      st <- get ;;
      if negb (clientReady st) then
        respond 503 (error_json "WhatsApp client not ready")
      else
        match value with
        | Joi.Undefined =>
            (* the destructuring stands before the [try] *)
            throw destructure_undefined
        | Joi.Fields fields =>
            let number := fields !! "number" in
            let groupTitle := fields !! "groupTitle" in
            let message := fields !! "message" in
            let chatId := resolve_target st number groupTitle in
            try_catch
              (match chatId with
               | None => respond 404 (error_json "Group not cached or unknown groupTitle")
               | Some to =>
                   respond 200 (SendJson (JObj {[ "success" := JBool true;
                                                  "to" := JStr to;
                                                  "note" := JStr "Sending in background" ]})) ;;
                   await (ClientSendMessage to message) sent ;;
                   emit (ConsoleLog ["✅ Message sent to " ++ to])
               end)
              (fun err =>
                 emit (ConsoleError ["❌ Failed to send message to "
                                       ++ default "undefined" chatId ++ ":";
                                     err_message err]))
        end
  end.

(** *** The process as a transition system over events *)

Definition handle (ev : event) : M unit :=
  match ev with
  | Qr qr dataUrl => on_qr qr dataUrl
  | Ready chats => on_ready chats
  | AuthFailure msg notified => on_auth_failure msg notified
  | Disconnected reason notified => on_disconnected reason notified
  | Incoming msg w => on_message msg w
  | GetQr => get_qr
  | GetHealth => get_health
  | GetStatus info => get_status info
  | PostSendMessage body sent => post_send_message body sent
  end.

Definition step (st : state) (ev : event) : state := state_of (handle ev st).

(** The state after a sequence of events, oldest first. *)
Definition run (st : state) (evs : list event) : state := fold_left step evs st.

(** The HTTP answers in a trace (each route sends at most one). *)
Definition responses (t : list effect) : list response :=
  omap (fun e => match e with Respond r => Some r | _ => None end) t.

End Service.

(** ** The patterns read directly, and the words of the specification *)

Module Pattern.

(** The longest run of digits at the front of a string, and what is left. *)
Fixpoint take_digits (s : string) : string :=
  match s with
  | String c s' => if is_digit c then String c (take_digits s') else EmptyString
  | EmptyString => EmptyString
  end.

Fixpoint drop_digits (s : string) : string :=
  match s with
  | String c s' => if is_digit c then drop_digits s' else s
  | EmptyString => EmptyString
  end.

Fixpoint all_digits (s : string) : bool :=
  match s with
  | String c s' => is_digit c && all_digits s'
  | EmptyString => true
  end.

(** A match of [[dD]\/(\d+)] that starts at the front of [s]: its group. *)
Definition order_at (s : string) : option string :=
  match s with
  | String c (String sl (String d r)) =>
      if mem_ascii c ["d"; "D"]%char && Ascii.eqb sl "/" && is_digit d
      then Some (String d (take_digits r))
      else None
  | _ => None
  end.

(** The group of the leftmost match. *)
Fixpoint find_order (s : string) : option string :=
  match order_at s with
  | Some ds => Some ds
  | None =>
      match s with
      | String _ s' => find_order s'
      | EmptyString => None
      end
  end.

(** [^\+?\d+$] read directly. *)
Definition digits1 (s : string) : bool := Js.truthy s && all_digits s.

Definition number_ok (s : string) : bool :=
  match s with
  | String c r => (Ascii.eqb c "+" && digits1 r) || digits1 s
  | EmptyString => false
  end.

(** Keep the digits, in order. *)
Fixpoint only_digits (s : string) : string :=
  match s with
  | String c s' => if is_digit c then String c (only_digits s') else only_digits s'
  | EmptyString => EmptyString
  end.

End Pattern.

Import Pattern.

Module Spec.

(** The text [s] holds, right after the prefix [pre], the letter d in
    either case, a slash and the digits [ds] (one or more). *)
Definition occurs_at (pre ds s : string) : Prop :=
  exists c post,
    s = pre ++ String c (String "/" (ds ++ post))
    /\ (c = "d" \/ c = "D")%char
    /\ ds <> ""
    /\ all_digits ds = true.

Definition contains_order_pattern (s : string) : Prop :=
  exists pre ds, occurs_at pre ds s.

(** The first match: no occurrence starts further left, and of those that
    start at the same place it has all the digits. *)
Definition first_order_match (s ds : string) : Prop :=
  exists pre,
    occurs_at pre ds s
    /\ forall pre' ds', occurs_at pre' ds' s ->
         String.length pre < String.length pre'
         \/ (String.length pre = String.length pre'
             /\ String.length ds' <= String.length ds).

(** The keys that [msgSchema] declares. *)
Definition known_key (k : string) : Prop :=
  k = "number" \/ k = "groupTitle" \/ k = "message".

(** The object [o] holds under [k] a string for which [P] holds. *)
Definition has_string (o : gmap string jsval) (k : string) (P : string -> Prop) : Prop :=
  exists s, o !! k = Some (JStr s) /\ P s.

Definition matches_number (n : string) : Prop := Regex.test number_re n = true.

(** The body holds exactly one of [number] (matching [^\+?\d+$]) and
    [groupTitle] (a non-empty string), and a non-empty [message]. *)
Definition valid_body (body : request_body) : Prop :=
  exists o,
    body = Body (JObj o)
    /\ ((has_string o "number" matches_number /\ o !! "groupTitle" = None)
        \/ (o !! "number" = None /\ has_string o "groupTitle" (fun g => g <> "")))
    /\ has_string o "message" (fun m => m <> "").

(** [o[k]] as validation reads it for a declared key [k]: the own key of
    the body, else the key of the object that the body holds under
    [__proto__]. *)
Definition field (o : gmap string jsval) (k : string) : option jsval :=
  match o !! k with
  | Some v => Some v
  | None =>
      match o !! "__proto__" with
      | Some (JObj p) => p !! k
      | _ => None
      end
  end.

Definition reads_string (o : gmap string jsval) (k : string) (P : string -> Prop) : Prop :=
  exists s, field o k = Some (JStr s) /\ P s.

(** What validation lets through: no body at all, or an object that, read
    with [field], holds exactly one of [number] (matching [^\+?\d+$]) and
    [groupTitle] (a non-empty string), a non-empty [message], and no own key
    besides those three and [__proto__]. *)
Definition accepted_body (body : request_body) : Prop :=
  body = NoBody
  \/ exists o,
       body = Body (JObj o)
       /\ ((reads_string o "number" matches_number /\ field o "groupTitle" = None)
           \/ (field o "number" = None /\ reads_string o "groupTitle" (fun g => g <> "")))
       /\ reads_string o "message" (fun m => m <> "")
       /\ forall k, o !! k <> None -> k = "__proto__" \/ known_key k.






(** The two answers of [GET /qr]. *)
Definition qr_not_available : response := Response 200 (SendText "QR belum tersedia").
Definition qr_page_response (img : string) : response :=
  Response 200 (SendText (qr_page img)).



(** The three conditions of the incoming message filter. *)
Definition passes_filter (env : environment) (msg : message) (c : chat) : bool :=
  negb (msg_fromMe msg) && chat_isGroup c && String.eqb (chat_name c) (GROUP_NAME env).

(** The 200 answer of [POST /send-message]. *)
Definition sent_response (to : string) : response :=
  Response 200 (SendJson (JObj {[ "success" := JBool true;
                                  "to" := JStr to;
                                  "note" := JStr "Sending in background" ]})).

Definition error_response (code : nat) (detail : string) : response :=
  Response code (SendJson (JObj {[ "success" := JBool false; "error" := JStr detail ]})).

(** The line that the inner [catch] of the message handler logs. *)
Definition api_error_log (e : js_error) : effect :=
  ConsoleError ["[WA-BOT] API Error:";
                Js.or_else (err_response_message e) (err_message e)].

(** The line that [POST /send-message] logs once the dispatch has ended. *)
Definition dispatch_log (to : string) (sent : outcome unit) : effect :=
  match sent with
  | Resolved _ => ConsoleLog ["✅ Message sent to " ++ to]
  | Rejected err =>
      ConsoleError ["❌ Failed to send message to " ++ to ++ ":"; err_message err]
  end.

End Spec.

(** ** The first listing of [index.js]

    The file also holds an earlier listing of the same service (its first
    210 lines).  It has no [clientReady] and no [cachedGroupId]: of the
    variables above it reads and writes [latestQR] and [groupChatInstance]
    only.  Its [/qr] and [/health] routes are those of the second listing. *)

Module Legacy.

(** [client.on("qr", async (qr) => ...)] *)
Definition on_qr (qr : string) (dataUrl : outcome string) : M unit :=
  img <- await (ToDataURL qr) dataUrl ;;
  assign (set_latestQR (Some img)) ;;
  emit (ConsoleLog ["QR code received. Scan via browser at /qr"]).

(** [client.on("ready", async () => ...)]:
    [groupChatInstance = chats.find(...) || null]. *)
Definition on_ready (env : environment) (chats : outcome (list chat)) : M unit :=
  emit (ConsoleLog ["WhatsApp client is ready"]) ;;
  try_catch
    (cs <- await GetChats chats ;;
     assign (set_groupChatInstance
               (List.find (fun c => String.eqb (chat_name c) (GROUP_NAME env)) cs)) ;;
     st <- get ;;
     match groupChatInstance st with
     | None =>
         emit (ConsoleWarn ["Group " ++ Js.quoted (GROUP_NAME env)
                              ++ " not found on ready."])
     | Some _ => ret tt
     end)
    (fun e => emit (ConsoleError ["Error fetching chats on ready:"; err_message e])).

(** [client.on("auth_failure", async (msg) => ...)]: the notification is
    awaited before the adapter is destroyed. *)
Definition on_auth_failure (msg : string) (notified : outcome unit) : M unit :=
  emit (ConsoleError ["AUTH FAILURE:"; msg]) ;;
  st <- get ;;
  match groupChatInstance st with
  | Some g =>
      try_catch
        (await (ChatSendMessage (chat_id g)
                  "⚠️ Sesi WhatsApp telah berakhir. Silakan scan ulang QR Code.")
               notified)
        (fun e => emit (ConsoleError ["Failed to notify group on auth failure:";
                                      err_message e]))
  | None => ret tt
  end ;;
  emit ClientDestroy ;;
  emit ClientInitialize.

(** [client.on("disconnected", async (reason) => ...)] *)
Definition on_disconnected (reason : string) (notified : outcome unit) : M unit :=
  emit (ConsoleWarn ["WhatsApp disconnected:"; reason]) ;;
  st <- get ;;
  match groupChatInstance st with
  | Some g =>
      try_catch
        (await (ChatSendMessage (chat_id g)
                  "⚠️ WhatsApp terputus. Mencoba menyambung kembali...")
               notified)
        (fun e => emit (ConsoleError ["Failed to notify group on disconnected:";
                                      err_message e]))
  | None => ret tt
  end ;;
  emit (SetTimeout [ClientDestroy; ClientInitialize] 5000).

Definition confirmation (orderId : string) : string :=
  "Order dengan ID " ++ orderId ++ " telah sukses.".

(** [client.on("message", async (msg) => ...)]: the inner [try] holds the
    POST only, its [catch] returns, and the confirmation follows it. *)
Definition on_message (env : environment) (msg : message) (w : message_world) : M unit :=
  try_catch
    (if msg_fromMe msg then ret tt
     else
       c <- await MsgGetChat (w_chat w) ;;
       if negb (chat_isGroup c) || negb (String.eqb (chat_name c) (GROUP_NAME env))
       then ret tt
       else
         match extract_order (msg_body msg) with
         | None => ret tt
         | Some orderId =>
             emit (ConsoleLog ["→ Found orderId: " ++ orderId]) ;;
             posted <- try_catch
                         (await (AxiosPost (API_ENDPOINT env) (payload_of env orderId msg))
                                (w_post w) ;;
                          ret true)
                         (fun err =>
                            emit (ConsoleError
                                    ["API Error:";
                                     Js.or_else (err_response_message err)
                                                (err_message err)]) ;;
                            ret false) ;;
             if posted
             then await (ChatSendMessage (chat_id c) (confirmation orderId)) (w_confirm w)
             else ret tt
         end)
    (fun err => emit (ConsoleError ["Error processing incoming message:";
                                    err_message err])).

(** [app.post("/send-message", async (req, res) => ...)]: a group title is
    looked up in the live chat list, and the answer waits for the dispatch. *)
Definition post_send_message `{ObjectKeys} (body : request_body)
           (chats : outcome (list chat)) (sent : outcome unit) : M unit :=
  match Joi.validate msgSchema body with
  | inl error => respond 400 (error_json (Joi.message error))
  | inr value =>
      match value with
      | Joi.Undefined =>
          (* the destructuring stands before the [try] *)
          throw destructure_undefined
      | Joi.Fields fields =>
          let number := fields !! "number" in
          let groupTitle := fields !! "groupTitle" in
          let message := fields !! "message" in
          try_catch
            (chatId <-
               (if Js.Boolean number then
                  let normalized := replace_class_g CNonDigit "" (default "" number) in
                  ret (Some (normalized ++ "@c.us"))
                else
                  cs <- await GetChats chats ;;
                  match List.find (fun c => bool_decide (Some (chat_name c) = groupTitle)) cs with
                  | None => ret None
                  | Some c => ret (Some (chat_id c))
                  end) ;;
             match chatId with
             | None => respond 404 (error_json "Group not found")
             | Some to =>
                 await (ClientSendMessage to message) sent ;;
                 respond 200 (SendJson (JObj {[ "success" := JBool true; "to" := JStr to ]}))
             end)
            (fun err => respond 500 (error_json (err_message err)))
      end
  end.

End Legacy.

(** ** What a trace holds, and what the events add up to *)

Module Observe.

(** The POSTs to the order API in a trace. *)
Definition posts (t : list effect) : list (string * order_notification) :=
  omap (fun e => match e with AxiosPost url p => Some (url, p) | _ => None end) t.

(** The texts sent through a chat object, with the id of the chat. *)
Definition chat_sends (t : list effect) : list (string * string) :=
  omap (fun e => match e with ChatSendMessage id text => Some (id, text) | _ => None end) t.

(** The messages handed to [client.sendMessage]. *)
Definition dispatches (t : list effect) : list (string * option string) :=
  omap (fun e => match e with ClientSendMessage id m => Some (id, m) | _ => None end) t.

(** Whether the adapter is destroyed or initialised in the trace itself
    (not in a timer callback). *)
Definition restarts (t : list effect) : list effect :=
  List.filter (fun e => match e with
                        | ClientDestroy | ClientInitialize => true
                        | _ => false
                        end) t.

Definition is_request (ev : event) : bool :=
  match ev with
  | GetQr | GetHealth | GetStatus _ | PostSendMessage _ _ => true
  | _ => false
  end.

(** The readiness flag that the lifecycle events of [evs] leave, from [b]. *)
Fixpoint ready_after (b : bool) (evs : list event) : bool :=
  match evs with
  | [] => b
  | Ready _ :: evs' => ready_after true evs'
  | (AuthFailure _ _ | Disconnected _ _) :: evs' => ready_after false evs'
  | _ :: evs' => ready_after b evs'
  end.

(** The chat that [ready] caches: the first one with the configured name. *)
Definition find_group (env : environment) (cs : list chat) : option chat :=
  List.find (fun c => String.eqb (chat_name c) (GROUP_NAME env)) cs.

(** The two group references agree: both absent, or the id is that of the
    handle and the handle is a chat with the configured name. *)
Definition cache_consistent (env : environment) (st : state) : Prop :=
  match groupChatInstance st, cachedGroupId st with
  | None, None => True
  | Some g, Some id => id = chat_id g /\ chat_name g = GROUP_NAME env
  | _, _ => False
  end.

(** The answer of the first listing's [/send-message] once the dispatch
    has settled. *)
Definition legacy_answer (to : string) (sent : outcome unit) : response :=
  match sent with
  | Resolved _ =>
      Response 200 (SendJson (JObj {[ "success" := JBool true; "to" := JStr to ]}))
  | Rejected e => Response 500 (error_json (err_message e))
  end.

End Observe.

(** ** Concrete inputs for the examples *)

Module Sample.

(** [toLowerCase] on the ASCII letters; enough for the group names below. *)
Definition lower_char (c : ascii) : ascii :=
  let n := nat_of_ascii c in
  if Nat.leb 65 n && Nat.leb n 90 then ascii_of_nat (n + 32) else c.

Fixpoint lower (s : string) : string :=
  match s with
  | String c s' => String (lower_char c) (lower s')
  | EmptyString => EmptyString
  end.

(** No variable set: the group is "WEB CUNGS". *)
Definition env : environment := Environment None None.

Definition group_chat : chat := Chat "WEB CUNGS" "120363025246125888@g.us" true.
Definition other_chat : chat := Chat "Family" "120363999999999999@g.us" true.

(** The variables after [ready] has found the group. *)
Definition ready_state : state :=
  {| latestQR := None; clientReady := true;
     groupChatInstance := Some group_chat;
     cachedGroupId := Some "120363025246125888@g.us" |}.

Definition order_message : message :=
  {| msg_fromMe := false;
     msg_body := "Please confirm d/482 thanks";
     msg_author := Some "628111222333@c.us";
     msg_from := "120363025246125888@g.us";
     msg_timestamp := 1700000000%N |}.

Definition network_error : js_error := JsError "connect ECONNREFUSED 127.0.0.1:8000" None.
Definition api_rejection : js_error :=
  JsError "Request failed with status code 422" (Some "Order not found").




(** An engine that lists the keys in the order of the map. *)
Lemma map_order_own (o : gmap string jsval) (k : string) :
  k ∈ (map_to_list o).*1 <-> is_Some (o !! k).
Proof.
  rewrite list_elem_of_fmap. split.
  - intros ([k' v] & -> & Hkv). apply elem_of_map_to_list in Hkv. now exists v.
  - intros [v Hv]. exists (k, v). split; [reflexivity |]. now apply elem_of_map_to_list.
Qed.

Definition map_order : ObjectKeys :=
  {| keys_of := fun o => (map_to_list o).*1; keys_of_own := map_order_own |}.

(** A body with one key that the schema does not declare. *)
Definition extra_key_body : jsval :=
  JObj {[ "number" := JStr "62812345"; "message" := JStr "hi"; "extra" := JNull ]}.

End Sample.

(** * Properties *)

(** ** Strings *)

#[local] Arguments String.append !_ _ : simpl nomatch.
#[local] Arguments Regex.test : simpl never.

Lemma append_nil_r (s : string) : s ++ "" = s.
Proof. induction s as [|c s IH]; simpl; [reflexivity | now rewrite IH]. Qed.


Lemma length_append (a b : string) :
  String.length (a ++ b) = String.length a + String.length b.
Proof. induction a as [|x a IH]; simpl; [reflexivity | now rewrite IH]. Qed.

Lemma append_inj_length (a b a' b' : string) :
  a ++ b = a' ++ b' -> String.length a = String.length a' -> a = a' /\ b = b'.
Proof.
  revert a'. induction a as [|x a IH]; intros [|x' a'] Heq Hlen; simpl in *;
    try discriminate.
  - split; [reflexivity | assumption].
  - injection Heq as -> Heq. injection Hlen as Hlen.
    destruct (IH _ Heq Hlen) as [-> ->]. split; reflexivity.
Qed.

Lemma substring_prefix (p q : string) : substring 0 (String.length p) (p ++ q) = p.
Proof.
  induction p as [|x p IH]; simpl.
  - destruct q; reflexivity.
  - now rewrite IH.
Qed.

Lemma truthy_iff (s : string) : Js.truthy s = true <-> s <> "".
Proof. destruct s; simpl; split; intros; congruence. Qed.

(** ** Digit runs *)

Lemma take_drop_digits (s : string) : take_digits s ++ drop_digits s = s.
Proof.
  induction s as [|c s IH]; simpl; [reflexivity |].
  destruct (is_digit c); simpl; [now rewrite IH | reflexivity].
Qed.

Lemma all_digits_take (s : string) : all_digits (take_digits s) = true.
Proof.
  induction s as [|c s IH]; simpl; [reflexivity |].
  destruct (is_digit c) eqn:Hc; simpl; [now rewrite Hc | reflexivity].
Qed.

Lemma substring_take_digits (s : string) :
  substring 0 (String.length (take_digits s)) s = take_digits s.
Proof.
  rewrite <- (take_drop_digits s) at 2. apply substring_prefix.
Qed.

(** A run of digits at the front of [z] is no longer than the longest one. *)
Lemma digits_prefix_le (x y z : string) :
  all_digits x = true -> x ++ y = z ->
  String.length x <= String.length (take_digits z).
Proof.
  revert z. induction x as [|c x IH]; intros z Hx Heq; simpl in *; [lia |].
  apply andb_true_iff in Hx as [Hc Hx]. subst z. simpl. rewrite Hc. simpl.
  apply le_n_S. now apply (IH (x ++ y)).
Qed.

Lemma all_digits_drop_nil (s : string) :
  all_digits s = true <-> drop_digits s = "".
Proof.
  induction s as [|c s IH]; simpl; [tauto |].
  destruct (is_digit c); simpl; [exact IH | split; discriminate].
Qed.

(** ** The matcher on the patterns of the program *)

(** With a continuation that accepts anything, [\d*] takes every digit. *)
Lemma star_class_digit_total {R} (k : nat -> string -> option R) pos s :
  (forall p r, k p r <> None) ->
  star_class CDigit pos s k
  = k (pos + String.length (take_digits s)) (drop_digits s).
Proof.
  intros Hk. revert pos. induction s as [|c s IH]; intros pos; simpl.
  - now rewrite Nat.add_0_r.
  - destruct (is_digit c) eqn:Hc; simpl.
    + rewrite IH. replace (S pos + String.length (take_digits s))
        with (pos + S (String.length (take_digits s))) by lia.
      destruct (k _ _) eqn:Hres; [reflexivity | now apply Hk in Hres].
    + now rewrite Nat.add_0_r.
Qed.

(** With a continuation that wants the end of the input, [\d*] succeeds
    exactly when only digits are left. *)
Lemma star_class_digit_end {R} (k : nat -> string -> option R) pos s :
  (forall p c r, k p (String c r) = None) ->
  star_class CDigit pos s k
  = if all_digits s then k (pos + String.length s) "" else None.
Proof.
  intros Hk. revert pos. induction s as [|c s IH]; intros pos; simpl.
  - now rewrite Nat.add_0_r.
  - destruct (is_digit c) eqn:Hc; simpl.
    + rewrite IH. replace (S pos + String.length s)
        with (pos + S (String.length s)) by lia.
      destruct (all_digits s); [| apply Hk].
      destruct (k _ _) eqn:Hres; [reflexivity | now rewrite Hk].
    + apply Hk.
Qed.

Lemma rmatch_order_re {R} (F : nat -> list string -> R) pos s :
  rmatch order_re pos s [] (fun p' _ caps => Some (F p' caps))
  = match order_at s with
    | Some ds => Some (F (pos + 2 + String.length ds) [ds])
    | None => None
    end.
Proof.
  destruct s as [|c [|sl [|d r]]]; cbn -[Nat.sub substring].
  - reflexivity.
  - now destruct (_ || _).
  - destruct (_ || _); [| reflexivity]. now destruct (Ascii.eqb sl "/").
  - destruct (_ || _); [| reflexivity].
    destruct (Ascii.eqb sl "/"); [| reflexivity].
    destruct (is_digit d) eqn:Hd; cbn -[Nat.sub substring]; [| reflexivity].
    rewrite star_class_digit_total by discriminate.
    replace (S (S (S pos)) + String.length (take_digits r) - S (S pos))
      with (S (String.length (take_digits r))) by lia.
    cbn [substring]. rewrite substring_take_digits.
    do 2 f_equal. simpl. lia.
Qed.

Lemma exec_from_order_re pos s :
  match exec_from order_re pos s with
  | Some m => capture m 1
  | None => None
  end = find_order s.
Proof.
  revert pos. induction s as [|c s IH]; intros pos.
  - reflexivity.
  - cbn [exec_from find_order]. rewrite rmatch_order_re.
    destruct (order_at (String c s)); [reflexivity | apply IH].
Qed.

Lemma extract_order_find (body : string) : extract_order body = find_order body.
Proof. apply exec_from_order_re. Qed.

(** ** The order extractor against the words of the specification *)

Lemma mem_dD (c : ascii) :
  mem_ascii c ["d"; "D"]%char = true <-> (c = "d" \/ c = "D")%char.
Proof.
  simpl. rewrite orb_false_r, orb_true_iff, !Ascii.eqb_eq. tauto.
Qed.

Lemma order_at_Some (s ds : string) :
  order_at s = Some ds ->
  Spec.occurs_at "" ds s
  /\ forall ds', Spec.occurs_at "" ds' s -> String.length ds' <= String.length ds.
Proof.
  destruct s as [|c [|sl [|d r]]]; try discriminate. unfold order_at.
  destruct (mem_ascii c _) eqn:Hc; [| discriminate].
  destruct (Ascii.eqb sl "/") eqn:Hsl; [| discriminate].
  destruct (is_digit d) eqn:Hd; [| discriminate].
  simpl. intros [= <-]. apply Ascii.eqb_eq in Hsl as ->. split.
  - exists c, (drop_digits r). repeat split.
    + simpl. now rewrite take_drop_digits.
    + now apply mem_dD.
    + discriminate.
    + simpl. now rewrite Hd, all_digits_take.
  - intros ds' (c' & post & Heq & _ & _ & Hds'). simpl in Heq.
    injection Heq as _ Heq.
    pose proof (digits_prefix_le ds' post (String d r) Hds' (eq_sym Heq)) as Hle.
    simpl in Hle. now rewrite Hd in Hle.
Qed.

Lemma order_at_None (s : string) :
  order_at s = None -> forall ds', ~ Spec.occurs_at "" ds' s.
Proof.
  intros Hno ds' (c & post & Heq & Hc & Hne & Hds'). subst s.
  destruct ds' as [|d ds']; [congruence |].
  simpl in Hds'. apply andb_true_iff in Hds' as [Hd _].
  apply mem_dD in Hc. simpl in Hno, Hc. now rewrite Hc, Hd in Hno.
Qed.

Lemma occurs_at_cons (a b : ascii) (pre ds s : string) :
  Spec.occurs_at (String a pre) ds (String b s) <-> a = b /\ Spec.occurs_at pre ds s.
Proof.
  split.
  - intros (c & post & Heq & H). simpl in Heq. injection Heq as -> ->.
    split; [reflexivity | now exists c, post].
  - intros [-> (c & post & -> & H)]. now exists c, post.
Qed.

Lemma occurs_at_empty (pre ds : string) : ~ Spec.occurs_at pre ds "".
Proof. intros (c & post & Heq & _). destruct pre; discriminate. Qed.

Lemma find_order_first (s ds : string) :
  find_order s = Some ds -> Spec.first_order_match s ds.
Proof.
  revert ds. induction s as [|a s IH]; intros ds; [discriminate |].
  cbn [find_order]. destruct (order_at (String a s)) as [ds0|] eqn:Hat.
  - intros [= ->]. apply order_at_Some in Hat as [Hocc Hmax].
    exists "". split; [assumption |].
    intros [|a' pre'] ds' Hocc'; simpl.
    + right. split; [reflexivity | now apply Hmax].
    + left. lia.
  - intros Hfind. destruct (IH _ Hfind) as (pre & Hocc & Hfirst).
    exists (String a pre). split; [now apply occurs_at_cons |].
    intros [|a' pre'] ds' Hocc'.
    + now apply (order_at_None _ Hat) in Hocc'.
    + apply occurs_at_cons in Hocc' as [_ Hocc'].
      destruct (Hfirst _ _ Hocc') as [Hlt | [Heq Hle]]; simpl; [left | right]; lia.
Qed.

Lemma find_order_none (s : string) :
  find_order s = None -> ~ Spec.contains_order_pattern s.
Proof.
  induction s as [|a s IH].
  - intros _ (pre & ds & Hocc). now apply occurs_at_empty in Hocc.
  - cbn [find_order]. destruct (order_at (String a s)) eqn:Hat; [discriminate |].
    intros Hfind ([|a' pre] & ds & Hocc).
    + now apply (order_at_None _ Hat) in Hocc.
    + apply occurs_at_cons in Hocc as [_ Hocc]. apply (IH Hfind). now exists pre, ds.
Qed.

(** Two first matches of one text are the same digits. *)
Lemma first_order_match_unique (s ds1 ds2 : string) :
  Spec.first_order_match s ds1 -> Spec.first_order_match s ds2 -> ds1 = ds2.
Proof.
  intros (pre1 & Hocc1 & Hfirst1) (pre2 & Hocc2 & Hfirst2).
  destruct (Hfirst1 _ _ Hocc2) as [Hlt | [Hlen Hle]];
    destruct (Hfirst2 _ _ Hocc1) as [Hlt' | [Hlen' Hle']]; try lia.
  destruct Hocc1 as (c1 & post1 & Heq1 & _), Hocc2 as (c2 & post2 & Heq2 & _).
  rewrite Heq1 in Heq2. apply append_inj_length in Heq2 as [_ Heq2]; [| assumption].
  injection Heq2 as _ Heq2.
  apply append_inj_length in Heq2 as [Hds _]; [assumption | lia].
Qed.

(** C1. For every message text, the order extractor returns the digits of the
    first substring that matches [d/<digits>] (the letter in either case, a
    slash, one or more digits) when there is one, and no match when there is
    none; what it returns is always a non-empty string of digits. *)
Theorem extract_order_first_match (body : string) :
  (forall ds, extract_order body = Some ds <-> Spec.first_order_match body ds)
  /\ (extract_order body = None <-> ~ Spec.contains_order_pattern body)
  /\ (forall ds, extract_order body = Some ds -> ds <> "" /\ all_digits ds = true).
Proof.
  rewrite extract_order_find.
  assert (Hsome : forall ds, find_order body = Some ds -> Spec.first_order_match body ds)
    by (intros ds; apply find_order_first).
  assert (Hnone : find_order body = None -> ~ Spec.contains_order_pattern body)
    by apply find_order_none.
  split; [| split].
  - intros ds. split; [apply Hsome |]. intros Hfirst.
    destruct (find_order body) as [ds0|] eqn:Hfind.
    + f_equal. exact (first_order_match_unique _ _ _ (Hsome _ eq_refl) Hfirst).
    + exfalso. apply (Hnone eq_refl).
      destruct Hfirst as (pre & Hocc & _). now exists pre, ds.
  - split; [apply Hnone |]. intros Hno.
    destruct (find_order body) as [ds0|] eqn:Hfind; [| reflexivity].
    exfalso. apply Hno. destruct (Hsome _ eq_refl) as (pre & Hocc & _).
    now exists pre, ds0.
  - intros ds Hfind. destruct (Hsome _ Hfind) as (pre & (c & post & _ & _ & Hne & Hds) & _).
    now split.
Qed.

(** ** The number pattern and the digit filter *)

Lemma rmatch_digits_end {R} (k : @kont R) p s caps :
  rmatch (RSeq (RPlus CDigit) REnd) p s caps k
  = if digits1 s then k (p + String.length s) "" caps else None.
Proof.
  destruct s as [|c s]; [reflexivity |].
  cbn [rmatch class_mem]. unfold digits1. cbn [Js.truthy all_digits andb].
  destruct (is_digit c); [| reflexivity]. cbn [andb].
  rewrite star_class_digit_end by reflexivity.
  cbn [String.length]. now replace (S p + String.length s) with (p + S (String.length s)) by lia.
Qed.

Lemma exec_from_number_re_later pos s : exec_from number_re (S pos) s = None.
Proof.
  revert pos. induction s as [|c s IH]; intros pos; [reflexivity |].
  cbn [exec_from]. cbn [number_re rmatch Nat.eqb]. apply IH.
Qed.

Lemma rmatch_number_re {R} (k : @kont R) (s : string) :
  rmatch number_re 0 s [] k
  = match
      match s with
      | String c s' =>
          if Ascii.eqb c "+" then rmatch (RSeq (RPlus CDigit) REnd) 1 s' [] k else None
      | EmptyString => None
      end
    with
    | Some x => Some x
    | None => rmatch (RSeq (RPlus CDigit) REnd) 0 s [] k
    end.
Proof. destruct s; reflexivity. Qed.

Lemma test_number_re (s : string) : Regex.test number_re s = number_ok s.
Proof.
  unfold Regex.test, str_match.
  destruct s as [|c s]; [reflexivity |].
  cbn [exec_from]. rewrite exec_from_number_re_later, rmatch_number_re.
  rewrite !rmatch_digits_end. unfold number_ok.
  destruct (Ascii.eqb c "+"); cbn [andb orb].
  - destruct (digits1 s); [reflexivity |].
    now destruct (digits1 (String c s)).
  - now destruct (digits1 (String c s)).
Qed.

(** [^\+?\d+$] in words: an optional plus sign, then one or more digits and
    nothing else. *)
Lemma number_ok_iff (s : string) :
  number_ok s = true
  <-> exists ds, ds <> "" /\ all_digits ds = true /\ (s = ds \/ s = String "+" ds).
Proof.
  unfold number_ok, digits1. split.
  - destruct s as [|c r]; [discriminate |].
    rewrite orb_true_iff, !andb_true_iff, Ascii.eqb_eq, !truthy_iff.
    intros [(-> & Hne & Hds) | [Hne Hds]].
    + exists r. auto.
    + exists (String c r). auto.
  - intros (ds & Hne & Hds & [-> | ->]).
    + destruct ds as [|c r]; [congruence |].
      rewrite orb_true_iff, !andb_true_iff. right. now split.
    + rewrite orb_true_iff, !andb_true_iff, Ascii.eqb_eq, truthy_iff. left. auto.
Qed.

Lemma replace_non_digits (s : string) : replace_class_g CNonDigit "" s = only_digits s.
Proof.
  induction s as [|c s IH]; simpl; [reflexivity |].
  destruct (is_digit c); simpl; now rewrite IH.
Qed.

Lemma only_digits_id (s : string) : all_digits s = true -> only_digits s = s.
Proof.
  induction s as [|c s IH]; simpl; [reflexivity |].
  intros [Hc Hs]%andb_true_iff. rewrite Hc. now rewrite IH.
Qed.

(** On a number that the schema accepts, the filter only drops the plus sign. *)
Lemma only_digits_number (s : string) :
  number_ok s = true ->
  exists ds, ds <> "" /\ all_digits ds = true
             /\ (s = ds \/ s = String "+" ds) /\ only_digits s = ds.
Proof.
  intros (ds & Hne & Hds & Hs)%number_ok_iff. exists ds. repeat split; try assumption.
  destruct Hs as [-> | ->]; [now apply only_digits_id |].
  simpl. now apply only_digits_id.
Qed.

(** ** The schema of [POST /send-message] *)

Lemma validate_number_inr (v : option jsval) (r : option string) :
  Joi.validate_string "number" number_schema v = inr r
  <-> (v = None /\ r = None)
      \/ exists n, v = Some (JStr n) /\ number_ok n = true /\ r = Some n.
Proof.
  unfold number_schema. split.
  - destruct v as [[| | |s| |]|]; try discriminate.
    + destruct s as [|c s]; [discriminate |]. simpl.
      rewrite test_number_re. destruct (number_ok (String c s)) eqn:Hok; [| discriminate].
      intros [= <-]. right. eauto.
    + intros [= <-]. now left.
  - intros [[-> ->] | (n & -> & Hok & ->)]; [reflexivity |].
    destruct n as [|c s]; [discriminate |]. simpl.
    now rewrite test_number_re, Hok.
Qed.

Lemma validate_groupTitle_inr (v : option jsval) (r : option string) :
  Joi.validate_string "groupTitle" groupTitle_schema v = inr r
  <-> (v = None /\ r = None)
      \/ exists g, v = Some (JStr g) /\ g <> "" /\ r = Some g.
Proof.
  unfold groupTitle_schema. split.
  - destruct v as [[| | |s| |]|]; try discriminate.
    + destruct s as [|c s]; [discriminate |]. intros [= <-]. right.
      exists (String c s). now repeat split.
    + intros [= <-]. now left.
  - intros [[-> ->] | (g & -> & Hne & ->)]; [reflexivity |].
    destruct g; [congruence | reflexivity].
Qed.

Lemma validate_message_inr (v : option jsval) (r : option string) :
  Joi.validate_string "message" message_schema v = inr r
  <-> exists m, v = Some (JStr m) /\ m <> "" /\ r = Some m.
Proof.
  unfold message_schema. split.
  - destruct v as [[| | |s| |]|]; try discriminate.
    destruct s as [|c s]; [discriminate |]. intros [= <-].
    exists (String c s). now repeat split.
  - intros (m & -> & Hne & ->). destruct m; [congruence | reflexivity].
Qed.

Lemma fields_lookup (m : gmap string string) (k : string) :
  Joi.Fields m !! k = m !! k.
Proof. reflexivity. Qed.

Lemma undefined_lookup (k : string) : Joi.Undefined !! k = None.
Proof. reflexivity. Qed.

Section SchemaProperties.

Context `{ObjectKeys}.

Lemma read_clone (o : gmap string jsval) (k : string) :
  k <> "__proto__" -> Joi.read (Joi.clone o) k = Spec.field o k.
Proof.
  intros Hk. unfold Joi.read, Joi.clone, Spec.field. cbn [Joi.own Joi.proto].
  rewrite lookup_delete_ne by congruence.
  destruct (o !! k); [reflexivity |].
  now destruct (o !! "__proto__") as [[]|].
Qed.

Lemma unknown_keys_nil (o : gmap string jsval) :
  Joi.unknown_keys (Joi.keys msgSchema) (Joi.clone o) = []
  <-> forall k, o !! k <> None -> k = "__proto__" \/ Spec.known_key k.
Proof.
  unfold Joi.unknown_keys, Joi.clone. cbn [Joi.own]. split.
  - intros Hnil k Hk. destruct (o !! k) as [v|] eqn:Hv; [| congruence].
    destruct (decide (k = "__proto__")) as [-> | Hproto]; [now left |]. right.
    destruct (decide (k ∈ (Joi.keys msgSchema).*1)) as [Hin | Hout].
    + cbn in Hin. unfold Spec.known_key.
      repeat (apply elem_of_cons in Hin as [-> | Hin]; [tauto |]).
      now apply elem_of_nil in Hin.
    + exfalso. apply (not_elem_of_nil k). rewrite <- Hnil.
      apply list_elem_of_filter. split; [assumption |].
      apply keys_of_own. rewrite lookup_delete_ne by congruence. now exists v.
  - intros Hknown. apply elem_of_nil_inv. intros k [Hout Hin]%list_elem_of_filter.
    apply keys_of_own in Hin as [v Hv].
    destruct (decide (k = "__proto__")) as [-> | Hproto].
    { now rewrite lookup_delete_eq in Hv. }
    rewrite lookup_delete_ne in Hv by congruence.
    cbn in Hout. apply Hout.
    destruct (Hknown k) as [-> | [-> | [-> | ->]]]; [congruence | congruence | set_solver..].
Qed.

(** What [msgSchema.validate] accepts, and the value it hands back. *)
Lemma validate_msgSchema_inr (body : request_body) (value : Joi.validated) :
  Joi.validate msgSchema body = inr value
  <-> (body = NoBody /\ value = Joi.Undefined)
      \/ exists o m,
           body = Body (JObj o)
           /\ Spec.field o "message" = Some (JStr m) /\ m <> ""
           /\ (forall k, o !! k <> None -> k = "__proto__" \/ Spec.known_key k)
           /\ ((exists n, Spec.field o "number" = Some (JStr n) /\ number_ok n = true
                          /\ Spec.field o "groupTitle" = None
                          /\ value = Joi.Fields (<["number" := n]> (<["message" := m]> ∅)))
               \/ (exists g, Spec.field o "groupTitle" = Some (JStr g) /\ g <> ""
                             /\ Spec.field o "number" = None
                             /\ value = Joi.Fields (<["groupTitle" := g]> (<["message" := m]> ∅)))).
Proof.
  split.
  - destruct body as [|[| | | | |o]]; try discriminate.
    { intros [= <-]. now left. }
    unfold Joi.validate, msgSchema.
    cbn [Joi.keys Joi.xors Joi.xor Joi.object app Joi.validate_keys Joi.check_xors].
    fold number_schema groupTitle_schema message_schema.
    rewrite !read_clone by discriminate.
    destruct (Joi.validate_string "number" _ _) as [e|vn] eqn:Hn; [discriminate |].
    destruct (Joi.validate_string "groupTitle" _ _) as [e|vg] eqn:Hg; [discriminate |].
    destruct (Joi.validate_string "message" _ _) as [e|vm] eqn:Hm; [discriminate |].
    apply validate_message_inr in Hm as (m & Hm & Hne & ->).
    destruct (Joi.unknown_keys _ _) eqn:Hunk; [| discriminate].
    pose proof (proj1 (unknown_keys_nil o) Hunk) as Hknown.
    apply validate_number_inr in Hn. apply validate_groupTitle_inr in Hg.
    cbn [List.filter]. unfold Joi.present. rewrite !read_clone by discriminate.
    destruct Hn as [[Hn ->] | (n & Hn & Hok & ->)];
      destruct Hg as [[Hg ->] | (g & Hg & Hgne & ->)];
      rewrite Hn, Hg; try discriminate; intros [= <-]; right; exists o, m.
    + repeat split; try assumption. right. exists g. now repeat split.
    + repeat split; try assumption. left. exists n. now repeat split.
  - intros [[-> ->] | (o & m & -> & Hm & Hne & Hknown & Hcase)]; [reflexivity |].
    unfold Joi.validate, msgSchema.
    cbn [Joi.keys Joi.xors Joi.xor Joi.object app Joi.validate_keys Joi.check_xors].
    fold number_schema groupTitle_schema message_schema.
    rewrite !read_clone by discriminate.
    assert (Hvm : Joi.validate_string "message" message_schema (Spec.field o "message")
                  = inr (Some m))
      by (apply validate_message_inr; eauto).
    apply (proj2 (unknown_keys_nil o)) in Hknown. unfold msgSchema in Hknown.
    cbn [Joi.keys Joi.xor Joi.object] in Hknown.
    fold number_schema groupTitle_schema message_schema in Hknown.
    destruct Hcase as [(n & Hn & Hok & Hg & ->) | (g & Hg & Hgne & Hn & ->)].
    + assert (Hvn : Joi.validate_string "number" number_schema (Spec.field o "number")
                    = inr (Some n))
        by (apply validate_number_inr; eauto).
      assert (Hvg : Joi.validate_string "groupTitle" groupTitle_schema
                      (Spec.field o "groupTitle") = inr None)
        by (apply validate_groupTitle_inr; eauto).
      rewrite Hvn, Hvg, Hvm, Hknown. cbn [List.filter]. unfold Joi.present.
      rewrite !read_clone by discriminate. now rewrite Hn, Hg.
    + assert (Hvn : Joi.validate_string "number" number_schema (Spec.field o "number")
                    = inr None)
        by (apply validate_number_inr; eauto).
      assert (Hvg : Joi.validate_string "groupTitle" groupTitle_schema
                      (Spec.field o "groupTitle") = inr (Some g))
        by (apply validate_groupTitle_inr; eauto).
      rewrite Hvn, Hvg, Hvm, Hknown. cbn [List.filter]. unfold Joi.present.
      rewrite !read_clone by discriminate. now rewrite Hn, Hg.
Qed.

End SchemaProperties.

(** ** What each handler does to the module-level variables *)

Section ServiceProperties.

Variable env : environment.
Variable toLowerCase : string -> string.
Context `{ObjectKeys}.

#[local] Abbreviation handle := (handle env toLowerCase).
#[local] Abbreviation step := (step env toLowerCase).
#[local] Abbreviation run := (run env toLowerCase).
#[local] Abbreviation post_send_message := (post_send_message env toLowerCase).
#[local] Abbreviation on_message := (on_message env).
#[local] Abbreviation relay_order := (relay_order env).
#[local] Abbreviation notify_order := (notify_order env).

Ltac unfold_handler :=
  cbv beta iota zeta delta
      [on_qr on_ready on_auth_failure on_disconnected notifyGroup
       get_qr get_health get_status respond assign
       bind ret try_catch get put emit await
       state_of trace_of outcome_of fst snd].

Lemma state_on_qr qr dataUrl st :
  state_of (on_qr qr dataUrl st)
  = match dataUrl with
    | Resolved img => set_latestQR (Some img) st
    | Rejected _ => st
    end.
Proof. unfold_handler. now destruct dataUrl. Qed.

Lemma state_on_ready chats st :
  state_of (on_ready env chats st)
  = match chats with
    | Resolved cs =>
        match List.find (fun c => String.eqb (chat_name c) (GROUP_NAME env)) cs with
        | Some g =>
            set_cachedGroupId (Some (chat_id g))
              (set_groupChatInstance (Some g) (set_clientReady true st))
        | None => set_clientReady true st
        end
    | Rejected _ => set_clientReady true st
    end.
Proof.
  unfold_handler. destruct chats as [cs|e]; [| reflexivity].
  now destruct (List.find _ cs).
Qed.

Lemma state_on_auth_failure msg notified st :
  state_of (on_auth_failure msg notified st) = set_clientReady false st.
Proof.
  unfold_handler. cbn [groupChatInstance set_clientReady].
  destruct (groupChatInstance st); [| reflexivity]. now destruct notified.
Qed.

Lemma state_on_disconnected reason notified st :
  state_of (on_disconnected reason notified st) = set_clientReady false st.
Proof.
  unfold_handler. cbn [groupChatInstance set_clientReady].
  destruct (groupChatInstance st); [| reflexivity]. now destruct notified.
Qed.

(** *** The incoming message handler, case by case *)

Lemma notify_order_cases c orderId msg w st :
  notify_order c orderId msg w st
  = (st,
     AxiosPost (API_ENDPOINT env) (payload_of env orderId msg)
       :: match w_post w with
          | Rejected e => [Spec.api_error_log e]
          | Resolved _ =>
              ChatSendMessage (chat_id c) (confirmation orderId)
                :: match w_confirm w with
                   | Rejected e => [Spec.api_error_log e]
                   | Resolved _ => []
                   end
          end,
     Resolved tt).
Proof.
  unfold notify_order, Spec.api_error_log.
  cbv beta iota zeta delta [bind ret try_catch emit await].
  destruct (w_post w) as [[]|e]; [| reflexivity].
  now destruct (w_confirm w) as [[]|e].
Qed.

Lemma relay_order_cases c msg w st :
  relay_order c msg w st
  = match extract_order (msg_body msg) with
    | None => (st, [], Resolved tt)
    | Some orderId =>
        (st,
         ConsoleLog ["→ Detected order ID: " ++ orderId]
           :: trace_of (notify_order c orderId msg w st),
         Resolved tt)
    end.
Proof.
  unfold relay_order. destruct (extract_order (msg_body msg)) as [orderId|];
    [| reflexivity].
  unfold bind at 1, emit at 1. now rewrite notify_order_cases.
Qed.

Lemma on_message_cases msg w st :
  on_message msg w st
  = if msg_fromMe msg then (st, [], Resolved tt)
    else
      match w_chat w with
      | Rejected e =>
          (st, [MsgGetChat;
                ConsoleError ["[WA-BOT] Message handler error:"; err_message e]],
           Resolved tt)
      | Resolved c =>
          if Spec.passes_filter env msg c
          then (st, MsgGetChat :: trace_of (relay_order c msg w st), Resolved tt)
          else (st, [MsgGetChat], Resolved tt)
      end.
Proof.
  unfold on_message, Spec.passes_filter.
  destruct (msg_fromMe msg); [reflexivity |].
  unfold try_catch, bind at 1, await at 1.
  destruct (w_chat w) as [c|e]; [| reflexivity].
  destruct (chat_isGroup c); cbn [negb orb andb]; [| reflexivity].
  destruct (String.eqb (chat_name c) (GROUP_NAME env)); cbn [negb]; [| reflexivity].
  rewrite relay_order_cases.
  now destruct (extract_order (msg_body msg)).
Qed.

Lemma state_on_message msg w st : state_of (on_message msg w st) = st.
Proof.
  rewrite on_message_cases. destruct (msg_fromMe msg); [reflexivity |].
  destruct (w_chat w) as [c|e]; [| reflexivity].
  now destruct (Spec.passes_filter env msg c).
Qed.

(** *** The routes, case by case *)

Lemma post_send_message_cases body sent st :
  post_send_message body sent st
  = match Joi.validate msgSchema body with
    | inl error => (st, [Respond (Spec.error_response 400 (Joi.message error))], Resolved tt)
    | inr value =>
        if clientReady st then
          match value with
          | Joi.Undefined => (st, [], Rejected destructure_undefined)
          | Joi.Fields _ =>
              match resolve_target env toLowerCase st (value !! "number") (value !! "groupTitle") with
              | None =>
                  (st, [Respond (Spec.error_response 404 "Group not cached or unknown groupTitle")],
                   Resolved tt)
              | Some to =>
                  (st, [Respond (Spec.sent_response to);
                        ClientSendMessage to (value !! "message");
                        Spec.dispatch_log to sent],
                   Resolved tt)
              end
          end
        else (st, [Respond (Spec.error_response 503 "WhatsApp client not ready")], Resolved tt)
    end.
Proof.
  unfold post_send_message. destruct (Joi.validate msgSchema body) as [error|value];
    [reflexivity |].
  unfold bind at 1, get at 1. destruct (clientReady st); cbn [negb]; [| reflexivity].
  destruct value as [|fields]; [reflexivity |].
  change (Joi.Fields fields !! "number") with (fields !! "number").
  change (Joi.Fields fields !! "groupTitle") with (fields !! "groupTitle").
  change (Joi.Fields fields !! "message") with (fields !! "message").
  destruct (resolve_target _ _ _ _ _) as [to|]; [| reflexivity].
  unfold try_catch, bind, respond, emit, await, Spec.dispatch_log.
  now destruct sent as [[]|err].
Qed.

(** A value whose fields resolve to a target is an object. *)
Lemma resolved_value_is_object st (value : Joi.validated) to :
  resolve_target env toLowerCase st (value !! "number") (value !! "groupTitle") = Some to ->
  exists fields, value = Joi.Fields fields.
Proof.
  destruct value as [|fields]; [| now exists fields].
  unfold resolve_target. cbn. rewrite bool_decide_eq_false_2 by discriminate.
  discriminate.
Qed.

Lemma state_post_send_message body sent st :
  state_of (post_send_message body sent st) = st.
Proof.
  rewrite post_send_message_cases.
  destruct (Joi.validate msgSchema body) as [error|value]; [reflexivity |].
  destruct (clientReady st); [| reflexivity].
  destruct value; [reflexivity |].
  now destruct (resolve_target _ _ _ _ _).
Qed.

Lemma get_qr_cases st :
  get_qr st
  = (st,
     [Respond (if Js.Boolean (latestQR st)
               then Spec.qr_page_response (default "" (latestQR st))
               else Spec.qr_not_available)],
     Resolved tt).
Proof. unfold_handler. now destruct (Js.Boolean (latestQR st)). Qed.


(** *** One step of the process *)

Lemma step_cases st ev :
  step st ev
  = match ev with
    | Qr _ (Resolved img) => set_latestQR (Some img) st
    | Ready chats => state_of (on_ready env chats st)
    | AuthFailure _ _ | Disconnected _ _ => set_clientReady false st
    | _ => st
    end.
Proof.
  unfold step, handle. destruct ev.
  - rewrite state_on_qr. now destruct dataUrl.
  - reflexivity.
  - apply state_on_auth_failure.
  - apply state_on_disconnected.
  - apply state_on_message.
  - now rewrite get_qr_cases.
  - reflexivity.
  - reflexivity.
  - apply state_post_send_message.
Qed.

Lemma run_cons st ev evs : run st (ev :: evs) = run (step st ev) evs.
Proof. reflexivity. Qed.

(** ** Session state across events *)




(** ** The cached QR image across events *)







(** ** The incoming message filter and the order notifier *)

Lemma passes_filter_true msg c :
  Spec.passes_filter env msg c = true
  <-> msg_fromMe msg = false /\ chat_isGroup c = true /\ chat_name c = GROUP_NAME env.
Proof.
  unfold Spec.passes_filter.
  rewrite !andb_true_iff, negb_true_iff, String.eqb_eq. tauto.
Qed.


(** C3. When the POST to the order API fails, the failure is logged and
    nothing else happens: no second POST, no confirmation to the chat, and
    the handler still ends normally.  When the POST succeeds, one
    confirmation that holds the order identifier is sent to the chat the
    message came from. *)
Theorem order_notifier_outcomes msg w c orderId st :
  msg_fromMe msg = false ->
  w_chat w = Resolved c ->
  chat_isGroup c = true ->
  chat_name c = GROUP_NAME env ->
  extract_order (msg_body msg) = Some orderId ->
  let detected := ConsoleLog ["→ Detected order ID: " ++ orderId] in
  let post := AxiosPost (API_ENDPOINT env) (payload_of env orderId msg) in
  let confirm :=
    ChatSendMessage (chat_id c) ("✅ Order ID " ++ orderId ++ " telah diproses.") in
  (forall e, w_post w = Rejected e ->
     on_message msg w st
     = (st, [MsgGetChat; detected; post; Spec.api_error_log e], Resolved tt))
  /\ (forall r, w_post w = Resolved r ->
        on_message msg w st
        = (st,
           [MsgGetChat; detected; post; confirm]
             ++ match w_confirm w with
                | Rejected e => [Spec.api_error_log e]
                | Resolved _ => []
                end,
           Resolved tt))%list.
Proof.
  intros Hme Hc Hg Hn Hid detected post confirm.
  assert (Hfilter : Spec.passes_filter env msg c = true)
    by now apply passes_filter_true.
  rewrite on_message_cases, Hme, Hc, Hfilter, relay_order_cases, Hid.
  rewrite notify_order_cases. cbn [trace_of fst snd].
  split; [intros e Hpost | intros r Hpost]; now rewrite Hpost.
Qed.

(** ** [POST /send-message] *)

Lemma matches_number_ok n : Spec.matches_number n <-> number_ok n = true.
Proof. unfold Spec.matches_number. now rewrite test_number_re. Qed.

(** The schema lets through exactly the bodies of [Spec.accepted_body]. *)
Lemma validate_accepts_iff body :
  (exists value, Joi.validate msgSchema body = inr value) <-> Spec.accepted_body body.
Proof.
  split.
  - intros (value & [[-> _] | (o & m & -> & Hm & Hne & Hknown & Hcase)]%validate_msgSchema_inr);
      [now left |].
    right. exists o. split; [reflexivity |]. split; [| split; [now exists m | exact Hknown]].
    destruct Hcase as [(n & Hn & Hok & Hg & _) | (g & Hg & Hgne & Hn & _)].
    + left. split; [| assumption]. exists n. split; [assumption |].
      now apply matches_number_ok.
    + right. split; [assumption |]. now exists g.
  - intros [-> | (o & -> & Hcase & (m & Hm & Hne) & Hknown)].
    { now exists Joi.Undefined. }
    destruct Hcase as [[(n & Hn & Hok) Hg] | [Hn (g & Hg & Hgne)]].
    + exists (Joi.Fields (<["number" := n]> (<["message" := m]> ∅))).
      apply validate_msgSchema_inr. right. exists o, m. repeat split; try assumption.
      left. exists n. repeat split; try assumption. now apply matches_number_ok.
    + exists (Joi.Fields (<["groupTitle" := g]> (<["message" := m]> ∅))).
      apply validate_msgSchema_inr. right. exists o, m. repeat split; try assumption.
      right. exists g. now repeat split.
Qed.

(** C8. With a body that passes validation, an adapter that is not ready
    gets the answer 503 and nothing is dispatched; the readiness check comes
    after validation, so a body that fails it gets 400 whether or not the
    adapter is ready. *)
Theorem send_message_not_ready body sent st :
  (forall value,
     Joi.validate msgSchema body = inr value -> clientReady st = false ->
     post_send_message body sent st
     = (st, [Respond (Spec.error_response 503 "WhatsApp client not ready")], Resolved tt))
  /\ (forall error,
        Joi.validate msgSchema body = inl error ->
        post_send_message body sent st
        = (st, [Respond (Spec.error_response 400 (Joi.message error))], Resolved tt)).
Proof.
  split.
  - intros value Hvalid Hready. now rewrite post_send_message_cases, Hvalid, Hready.
  - intros error Hinvalid. now rewrite post_send_message_cases, Hinvalid.
Qed.

(** C4. Once validation, the readiness check and target resolution have
    passed, the 200 answer that echoes the target goes out first, then the
    message is handed to the adapter; how the dispatch ends only decides
    which line is logged, and the answer is the same either way. *)
Theorem response_before_dispatch body value to sent st :
  Joi.validate msgSchema body = inr value ->
  clientReady st = true ->
  resolve_target env toLowerCase st (value !! "number") (value !! "groupTitle") = Some to ->
  post_send_message body sent st
  = (st,
     [Respond (Spec.sent_response to);
      ClientSendMessage to (value !! "message");
      Spec.dispatch_log to sent],
     Resolved tt)
  /\ forall sent',
       state_of (post_send_message body sent' st) = st
       /\ responses (trace_of (post_send_message body sent' st)) = [Spec.sent_response to]
       /\ outcome_of (post_send_message body sent' st) = Resolved tt.
Proof.
  intros Hvalid Hready Hto.
  destruct (resolved_value_is_object _ _ _ Hto) as [fields ->]. split.
  - rewrite post_send_message_cases, Hvalid, Hready. cbv beta iota. now rewrite Hto.
  - intros sent'. rewrite post_send_message_cases, Hvalid, Hready. cbv beta iota.
    rewrite Hto. repeat split. now destruct sent' as [[]|e].
Qed.

(** A validated value that carries a group title carries no number. *)
Lemma validated_groupTitle_no_number body value g :
  Joi.validate msgSchema body = inr value ->
  value !! "groupTitle" = Some g ->
  value !! "number" = None.
Proof.
  intros [[_ ->] | (o & m & _ & _ & _ & _ & Hcase)]%validate_msgSchema_inr Hg.
  { now rewrite undefined_lookup in Hg. }
  destruct Hcase as [(n & _ & _ & _ & ->) | (g' & _ & _ & _ & ->)];
    rewrite fields_lookup in *.
  - rewrite lookup_insert_ne, lookup_insert_ne, lookup_empty in Hg by discriminate.
    discriminate.
  - now rewrite lookup_insert_ne, lookup_insert_ne, lookup_empty by discriminate.
Qed.

Lemma resolve_target_groupTitle st g :
  resolve_target env toLowerCase st None (Some g)
  = if bool_decide (toLowerCase g = toLowerCase (GROUP_NAME env))
       && Js.Boolean (cachedGroupId st)
    then cachedGroupId st
    else None.
Proof.
  unfold resolve_target. cbn [Js.Boolean fmap option_fmap option_map].
  destruct (decide (toLowerCase g = toLowerCase (GROUP_NAME env))) as [Heq | Hne].
  - rewrite Heq. now rewrite !bool_decide_eq_true_2.
  - rewrite !bool_decide_eq_false_2; [reflexivity | assumption | congruence].
Qed.

(** C5. A request that gives [groupTitle] (valid body, adapter ready)
    succeeds only when the title equals the configured group name up to
    letter case and a group id is cached; the cached id is then the target
    and the chat list is not asked for.  In every other case the answer is
    404. *)
Theorem group_title_target body value g sent st :
  Joi.validate msgSchema body = inr value ->
  value !! "groupTitle" = Some g ->
  clientReady st = true ->
  ~ In GetChats (trace_of (post_send_message body sent st))
  /\ (toLowerCase g = toLowerCase (GROUP_NAME env) ->
      forall id, cachedGroupId st = Some id -> Js.truthy id = true ->
      post_send_message body sent st
      = (st,
         [Respond (Spec.sent_response id);
          ClientSendMessage id (value !! "message");
          Spec.dispatch_log id sent],
         Resolved tt))
  /\ (toLowerCase g <> toLowerCase (GROUP_NAME env)
      \/ Js.Boolean (cachedGroupId st) = false ->
      post_send_message body sent st
      = (st,
         [Respond (Spec.error_response 404 "Group not cached or unknown groupTitle")],
         Resolved tt)).
Proof.
  intros Hvalid Hg Hready.
  pose proof (validated_groupTitle_no_number _ _ _ Hvalid Hg) as Hn.
  destruct value as [|fields]; [now rewrite undefined_lookup in Hg |].
  rewrite post_send_message_cases, Hvalid, Hready. cbv beta iota.
  rewrite Hn, Hg, resolve_target_groupTitle.
  split; [| split].
  - destruct (_ && _); [destruct (cachedGroupId st) |]; cbn [trace_of fst snd];
      [destruct sent as [[]|e] | |]; cbn; intuition discriminate.
  - intros Heq id Hid Htruthy.
    rewrite bool_decide_eq_true_2 by assumption.
    rewrite Hid. cbn [Js.Boolean andb]. now rewrite Htruthy.
  - intros [Hne | Hnone].
    + now rewrite bool_decide_eq_false_2.
    + rewrite Hnone. now rewrite andb_false_r.
Qed.

(** C6. A request that gives a [number] matching the pattern and a non-empty
    [message], with the adapter ready, is answered 200 with the target made
    of the number without its non-digit characters, followed by the fixed
    suffix. *)
Theorem number_target n m sent st :
  Spec.matches_number n ->
  m <> "" ->
  clientReady st = true ->
  let to := replace_class_g CNonDigit "" n ++ "@c.us" in
  post_send_message (JObj {[ "number" := JStr n; "message" := JStr m ]}) sent st
  = (st,
     [Respond (Spec.sent_response to);
      ClientSendMessage to (Some m);
      Spec.dispatch_log to sent],
     Resolved tt).
Proof.
  intros Hn Hm Hready to. apply matches_number_ok in Hn.
  assert (Hvalid : Joi.validate msgSchema (JObj {[ "number" := JStr n; "message" := JStr m ]})
                   = inr (Joi.Fields (<["number" := n]> (<["message" := m]> ∅)))).
  { apply validate_msgSchema_inr. right.
    exists {[ "number" := JStr n; "message" := JStr m ]}, m.
    split; [reflexivity |]. split; [reflexivity |]. split; [assumption |]. split.
    - intros k Hk. right. unfold Spec.known_key.
      destruct (decide (k = "number")) as [-> | Hk1]; [tauto |].
      destruct (decide (k = "message")) as [-> | Hk2]; [tauto |].
      exfalso. apply Hk.
      now rewrite lookup_insert_ne, lookup_singleton_ne by congruence.
    - left. exists n. now repeat split. }
  rewrite post_send_message_cases, Hvalid, Hready. cbv beta iota.
  rewrite !fields_lookup.
  rewrite lookup_insert_eq.
  rewrite (lookup_insert_ne _ "number" "groupTitle"),
    (lookup_insert_ne _ "message" "groupTitle"), lookup_empty by discriminate.
  rewrite (lookup_insert_ne _ "number" "message"), lookup_insert_eq by discriminate.
  unfold resolve_target. cbn [Js.Boolean default from_option].
  destruct n as [|c n]; [discriminate |]. reflexivity.
Qed.

(** C7 (as amended). [POST /send-message] answers 400, with the message of
    the validation error as detail and without dispatching anything, exactly
    when [msgSchema.validate] returns an error.  That is the case exactly
    when the body is there and is not an object that, as validation reads
    it, holds exactly one of [number] (matching the pattern) and
    [groupTitle] (a non-empty string), a non-empty [message], and no own key
    besides these and [__proto__].  A body that holds both [number] and
    [groupTitle] gets 400; a request without a body does not. *)
Theorem send_message_400_iff_invalid body sent st :
  (forall error,
     Joi.validate msgSchema body = inl error ->
     post_send_message body sent st
     = (st,
        [Respond (Response 400
                    (SendJson (JObj {[ "success" := JBool false;
                                       "error" := JStr (Joi.message error) ]})))],
        Resolved tt))
  /\ ((exists error, Joi.validate msgSchema body = inl error)
      <-> ~ Spec.accepted_body body)
  /\ (Spec.accepted_body body ->
      forall resp, In resp (responses (trace_of (post_send_message body sent st))) ->
                   status resp <> 400)
  /\ (forall o, body = Body (JObj o) ->
      o !! "number" <> None -> o !! "groupTitle" <> None ->
      exists error, Joi.validate msgSchema body = inl error).
Proof.
  assert (Hiff : (exists error, Joi.validate msgSchema body = inl error)
                 <-> ~ Spec.accepted_body body).
  { rewrite <- validate_accepts_iff. split.
    - intros [error Herr] [value Hval]. congruence.
    - intros Hno. destruct (Joi.validate msgSchema body) as [error|value] eqn:Hv.
      + now exists error.
      + exfalso. apply Hno. now exists value. }
  split; [| split; [exact Hiff | split]].
  - intros error Herr. now rewrite post_send_message_cases, Herr.
  - intros (value & Hv)%validate_accepts_iff resp.
    rewrite post_send_message_cases, Hv.
    destruct (clientReady st); [destruct value as [|fields] |].
    + intros [].
    + destruct (resolve_target _ _ _ _ _); [destruct sent as [[]|e] | ];
        cbn; intros [<- | []]; discriminate.
    + cbn. intros [<- | []]. discriminate.
  - intros o -> Hn Hg. apply Hiff.
    intros [Hnone | (o' & [= <-] & Hcase & _)]; [discriminate |].
    unfold Spec.field in Hcase.
    destruct (o !! "number") eqn:Hon; [| congruence].
    destruct (o !! "groupTitle") eqn:Hog; [| congruence].
    destruct Hcase as [[_ Hg'] | [Hn' _]]; discriminate.
Qed.

End ServiceProperties.

(** ** The properties at concrete inputs *)

#[local] Existing Instance Sample.map_order.



(** C7, as stated, fails: this body holds exactly one of the two target
    keys and a non-empty message, and is still answered 400, because the
    schema declares no key [extra]. *)
Lemma unknown_key_counterexample :
  Spec.valid_body Sample.extra_key_body
  /\ post_send_message Sample.env Sample.lower Sample.extra_key_body (Resolved tt)
                       Sample.ready_state
     = (Sample.ready_state,
        [Respond (Spec.error_response 400 (Js.quoted "extra" ++ " is not allowed"))],
        Resolved tt).
Proof.
  split.
  - eexists. split; [reflexivity |]. split.
    + left. split; [| reflexivity]. exists "62812345". split; reflexivity.
    + exists "hi". split; [reflexivity | discriminate].
  - vm_compute. reflexivity.
Qed.



Lemma order_notifier_outcomes_witness :
  on_message Sample.env Sample.order_message
             (MessageWorld (Resolved Sample.group_chat)
                           (Rejected Sample.api_rejection) (Resolved tt))
             Sample.ready_state
  = (Sample.ready_state,
     [MsgGetChat;
      ConsoleLog ["→ Detected order ID: 482"];
      AxiosPost "http://localhost:8000/api/orders/mark-as-done"
                (OrderNotification "482" "WEB CUNGS" "628111222333@c.us"
                                   "Please confirm d/482 thanks" 1700000000%N);
      ConsoleError ["[WA-BOT] API Error:"; "Order not found"]],
     Resolved tt)
  /\ on_message Sample.env Sample.order_message
                (MessageWorld (Resolved Sample.group_chat) (Resolved tt) (Resolved tt))
                Sample.ready_state
     = (Sample.ready_state,
        [MsgGetChat;
         ConsoleLog ["→ Detected order ID: 482"];
         AxiosPost "http://localhost:8000/api/orders/mark-as-done"
                   (OrderNotification "482" "WEB CUNGS" "628111222333@c.us"
                                      "Please confirm d/482 thanks" 1700000000%N);
         ChatSendMessage "120363025246125888@g.us" "✅ Order ID 482 telah diproses."],
        Resolved tt).
Proof.
  split.
  - exact (proj1 (order_notifier_outcomes Sample.env Sample.order_message
                    (MessageWorld (Resolved Sample.group_chat)
                                  (Rejected Sample.api_rejection) (Resolved tt))
                    Sample.group_chat "482" Sample.ready_state
                    eq_refl eq_refl eq_refl eq_refl eq_refl)
                 Sample.api_rejection eq_refl).
  - exact (proj2 (order_notifier_outcomes Sample.env Sample.order_message
                    (MessageWorld (Resolved Sample.group_chat) (Resolved tt) (Resolved tt))
                    Sample.group_chat "482" Sample.ready_state
                    eq_refl eq_refl eq_refl eq_refl eq_refl)
                 tt eq_refl).
Defined.

Lemma response_before_dispatch_witness :
  post_send_message Sample.env Sample.lower
    (JObj {[ "number" := JStr "+62812345"; "message" := JStr "hi" ]})
    (Rejected Sample.network_error) Sample.ready_state
  = (Sample.ready_state,
     [Respond (Spec.sent_response "62812345@c.us");
      ClientSendMessage "62812345@c.us" (Some "hi");
      ConsoleError ["❌ Failed to send message to 62812345@c.us:";
                    "connect ECONNREFUSED 127.0.0.1:8000"]],
     Resolved tt).
Proof.
  exact (proj1 (response_before_dispatch Sample.env Sample.lower
                  (JObj {[ "number" := JStr "+62812345"; "message" := JStr "hi" ]})
                  (Joi.Fields (<["number" := "+62812345"]> (<["message" := "hi"]> ∅)))
                  "62812345@c.us" (Rejected Sample.network_error) Sample.ready_state
                  eq_refl eq_refl eq_refl)).
Defined.

Lemma group_title_target_witness :
  post_send_message Sample.env Sample.lower
    (JObj {[ "groupTitle" := JStr "web cungs"; "message" := JStr "hi" ]})
    (Resolved tt) Sample.ready_state
  = (Sample.ready_state,
     [Respond (Spec.sent_response "120363025246125888@g.us");
      ClientSendMessage "120363025246125888@g.us" (Some "hi");
      ConsoleLog ["✅ Message sent to 120363025246125888@g.us"]],
     Resolved tt).
Proof.
  exact (proj1 (proj2 (group_title_target Sample.env Sample.lower
                         (JObj {[ "groupTitle" := JStr "web cungs"; "message" := JStr "hi" ]})
                         (Joi.Fields (<["groupTitle" := "web cungs"]> (<["message" := "hi"]> ∅)))
                         "web cungs" (Resolved tt) Sample.ready_state
                         eq_refl eq_refl eq_refl))
               eq_refl "120363025246125888@g.us" eq_refl eq_refl).
Defined.

Lemma number_target_witness :
  post_send_message Sample.env Sample.lower
    (JObj {[ "number" := JStr "+62812345"; "message" := JStr "hi" ]})
    (Resolved tt) Sample.ready_state
  = (Sample.ready_state,
     [Respond (Spec.sent_response "62812345@c.us");
      ClientSendMessage "62812345@c.us" (Some "hi");
      ConsoleLog ["✅ Message sent to 62812345@c.us"]],
     Resolved tt).
Proof.
  refine (number_target Sample.env Sample.lower "+62812345" "hi" (Resolved tt)
            Sample.ready_state _ _ _).
  - reflexivity.
  - discriminate.
  - reflexivity.
Defined.

(** ** The examples of the specification *)

Example extract_order_confirm : extract_order "Please confirm d/482 thanks" = Some "482".
Proof. reflexivity. Qed.

Example extract_order_upper : extract_order "D/00921 extra" = Some "00921".
Proof. reflexivity. Qed.

Example extract_order_no_id : extract_order "no id here" = None.
Proof. reflexivity. Qed.

(** The leftmost occurrence wins, and an occurrence needs a digit. *)
Example extract_order_leftmost : extract_order "d/ d/x D/7d/8" = Some "7".
Proof. reflexivity. Qed.

Example extract_order_inside_word : extract_order "paid/15 and d/2" = Some "15".
Proof. reflexivity. Qed.

Example number_pattern_examples :
  map (Regex.test number_re) ["+62812345"; "62812345"; "+"; ""; "62 812"; "+62a"; "++62"]
  = [true; true; false; false; false; false; false].
Proof. reflexivity. Qed.

Example strip_non_digits : replace_class_g CNonDigit "" "+62812345" = "62812345".
Proof. reflexivity. Qed.

(** [GET /qr] before any QR code has been issued. *)
Example qr_before_any_qr :
  get_qr initial_state = (initial_state, [Respond Spec.qr_not_available], Resolved tt).
Proof. reflexivity. Qed.

Example health_always_ok st :
  get_health st = (st, [Respond (Response 200 (SendText "OK"))], Resolved tt).
Proof. reflexivity. Qed.

(** Both [number] and [groupTitle]: 400, and nothing is dispatched. *)
Example both_targets_rejected :
  post_send_message Sample.env Sample.lower
    (JObj {[ "number" := JStr "+62812345"; "groupTitle" := JStr "WEB CUNGS";
             "message" := JStr "hi" ]})
    (Resolved tt) Sample.ready_state
  = (Sample.ready_state,
     [Respond (Spec.error_response 400
                 (Js.quoted "value"
                    ++ " contains a conflict between exclusive peers [number, groupTitle]"))],
     Resolved tt).
Proof. vm_compute. reflexivity. Qed.

(** Another group title while "WEB CUNGS" is cached: 404. *)
Example other_group_not_found :
  post_send_message Sample.env Sample.lower
    (JObj {[ "groupTitle" := JStr "Other Group"; "message" := JStr "hi" ]})
    (Resolved tt) Sample.ready_state
  = (Sample.ready_state,
     [Respond (Spec.error_response 404 "Group not cached or unknown groupTitle")],
     Resolved tt).
Proof. vm_compute. reflexivity. Qed.

(** A valid body while the adapter is not ready: 503; an empty body: 400. *)
Example not_ready_examples :
  post_send_message Sample.env Sample.lower
    (JObj {[ "number" := JStr "+62812345"; "message" := JStr "hi" ]})
    (Resolved tt) initial_state
  = (initial_state,
     [Respond (Spec.error_response 503 "WhatsApp client not ready")],
     Resolved tt)
  /\ post_send_message Sample.env Sample.lower (JObj ∅) (Resolved tt) initial_state
     = (initial_state,
        [Respond (Spec.error_response 400 (Js.quoted "message" ++ " is required"))],
        Resolved tt).
Proof. split; vm_compute; reflexivity. Qed.

(** A request without a body: 503 while the adapter is not ready; once it
    is ready the destructuring throws and nothing is answered. *)
Example no_body_examples :
  post_send_message Sample.env Sample.lower NoBody (Resolved tt) initial_state
  = (initial_state,
     [Respond (Spec.error_response 503 "WhatsApp client not ready")],
     Resolved tt)
  /\ post_send_message Sample.env Sample.lower NoBody (Resolved tt) Sample.ready_state
     = (Sample.ready_state, [], Rejected destructure_undefined).
Proof. split; vm_compute; reflexivity. Qed.

(** An own key [__proto__] is no unknown key, and validation reads through
    the object under it: here [message] comes from there. *)
Example proto_body_examples :
  post_send_message Sample.env Sample.lower
    (JObj {[ "number" := JStr "62812345";
             "__proto__" := JObj {[ "message" := JStr "hi" ]} ]})
    (Resolved tt) Sample.ready_state
  = (Sample.ready_state,
     [Respond (Spec.sent_response "62812345@c.us");
      ClientSendMessage "62812345@c.us" (Some "hi");
      ConsoleLog ["✅ Message sent to 62812345@c.us"]],
     Resolved tt)
  /\ post_send_message Sample.env Sample.lower
       (JObj {[ "number" := JStr "62812345"; "message" := JStr "hi";
                "__proto__" := JStr "x" ]})
       (Resolved tt) Sample.ready_state
     = (Sample.ready_state,
        [Respond (Spec.sent_response "62812345@c.us");
         ClientSendMessage "62812345@c.us" (Some "hi");
         ConsoleLog ["✅ Message sent to 62812345@c.us"]],
        Resolved tt)
  /\ post_send_message Sample.env Sample.lower
       (JObj {[ "number" := JStr "62812345"; "message" := JStr "hi";
                "__proto__" := JObj {[ "groupTitle" := JStr "WEB CUNGS" ]} ]})
       (Resolved tt) Sample.ready_state
     = (Sample.ready_state,
        [Respond (Spec.error_response 400
                    (Js.quoted "value"
                     ++ " contains a conflict between exclusive peers [number, groupTitle]"))],
        Resolved tt).
Proof. split; [| split]; vm_compute; reflexivity. Qed.

(** A message from another group, and one written by the bot, are dropped. *)
Example filtered_messages :
  on_message Sample.env Sample.order_message
             (MessageWorld (Resolved Sample.other_chat) (Resolved tt) (Resolved tt))
             Sample.ready_state
  = (Sample.ready_state, [MsgGetChat], Resolved tt)
  /\ on_message Sample.env
                (Message true "d/482" None "120363025246125888@g.us" 1700000000%N)
                (MessageWorld (Resolved Sample.group_chat) (Resolved tt) (Resolved tt))
                Sample.ready_state
     = (Sample.ready_state, [], Resolved tt).
Proof. split; reflexivity. Qed.

(** The whole reconnect scenario, from process start. *)
Example ready_then_disconnected :
  run Sample.env Sample.lower initial_state
      [Ready (Resolved [Sample.other_chat; Sample.group_chat]);
       Disconnected "NAVIGATION" (Resolved tt)]
  = set_clientReady false Sample.ready_state.
Proof. reflexivity. Qed.

(** * Further properties of the handlers *)

Section SessionProperties.

Variable env : environment.
Variable toLowerCase : string -> string.
Context `{ObjectKeys}.

#[local] Abbreviation handle := (handle env toLowerCase).
#[local] Abbreviation step := (step env toLowerCase).
#[local] Abbreviation run := (run env toLowerCase).
#[local] Abbreviation post_send_message := (post_send_message env toLowerCase).
#[local] Abbreviation on_message := (on_message env).
#[local] Abbreviation on_ready := (on_ready env).

Lemma find_group_name cs g :
  Observe.find_group env cs = Some g -> chat_name g = GROUP_NAME env.
Proof.
  unfold Observe.find_group. intros [_ Hname]%find_some.
  now apply String.eqb_eq in Hname.
Qed.

Lemma step_cache_consistent st ev :
  Observe.cache_consistent env st -> Observe.cache_consistent env (step st ev).
Proof.
  intros Hst. rewrite step_cases.
  destruct ev as [qr [img|e]|chats| | | | | | |]; try exact Hst.
  rewrite state_on_ready. destruct chats as [cs|e]; [| exact Hst].
  fold (Observe.find_group env cs).
  destruct (Observe.find_group env cs) as [g|] eqn:Hfind; [| exact Hst].
  split; [reflexivity | now apply (find_group_name cs)].
Qed.

Lemma run_cache_consistent st evs :
  Observe.cache_consistent env st -> Observe.cache_consistent env (run st evs).
Proof.
  revert st. induction evs as [|ev evs IH]; intros st Hst; [exact Hst |].
  rewrite run_cons. apply IH. now apply step_cache_consistent.
Qed.

(** X1. Whatever events and requests arrive after process start, the two
    group references agree: either both are absent, or the cached id is the
    id of the cached chat object and that chat carries the configured
    name. *)
Theorem group_cache_consistent evs :
  Observe.cache_consistent env (run initial_state evs).
Proof. apply run_cache_consistent. exact I. Qed.

(** X2. The readiness flag is decided by the last lifecycle event alone:
    [ready] raises it (also when the chat list cannot be fetched or the
    group is missing), [auth_failure] and [disconnected] lower it, and no
    [qr] event, message or request touches it. *)
Theorem readiness_follows_lifecycle st evs :
  clientReady (run st evs) = Observe.ready_after (clientReady st) evs.
Proof.
  revert st. induction evs as [|ev evs IH]; intros st; [reflexivity |].
  rewrite run_cons, IH.
  assert (Hstep : clientReady (step st ev)
                  = Observe.ready_after (clientReady st) [ev]).
  { rewrite step_cases.
    destruct ev as [qr [img|e]|chats| | | | | | |]; try reflexivity.
    rewrite state_on_ready. destruct chats as [cs|e]; [| reflexivity].
    now destruct (List.find _ cs). }
  rewrite Hstep. now destruct ev.
Qed.

Lemma responses_app t1 t2 :
  responses (t1 ++ t2)%list = (responses t1 ++ responses t2)%list.
Proof. unfold responses. apply omap_app. Qed.

Lemma on_ready_cases chats st :
  on_ready chats st
  = (state_of (on_ready chats st),
     ConsoleLog ["[WA-BOT] WhatsApp client is ready"]
       :: GetChats
       :: match chats with
          | Resolved cs =>
              match Observe.find_group env cs with
              | Some _ =>
                  [ConsoleLog ["[WA-BOT] Group " ++ Js.quoted (GROUP_NAME env)
                                 ++ " found and cached"]]
              | None =>
                  [ConsoleWarn ["[WA-BOT] Group " ++ Js.quoted (GROUP_NAME env)
                                  ++ " not found"]]
              end
          | Rejected e =>
              [ConsoleError ["[WA-BOT] Error fetching group chats:"; err_message e]]
          end,
     Resolved tt).
Proof.
  unfold Observe.find_group, on_ready.
  cbv beta iota zeta delta [assign bind ret try_catch get put emit await
                            state_of fst snd].
  destruct chats as [cs|e]; [| reflexivity].
  now destruct (List.find _ cs).
Qed.

Lemma on_auth_failure_cases msg notified st :
  on_auth_failure msg notified st
  = (set_clientReady false st,
     ConsoleError ["[WA-BOT] AUTH FAILURE:"; msg]
       :: match groupChatInstance st with
          | Some g =>
              ChatSendMessage (chat_id g)
                "⚠️ Sesi WhatsApp berakhir. Silakan scan ulang QR Code."
                :: ClientDestroy :: ClientInitialize
                :: match notified with
                   | Resolved _ => []
                   | Rejected e =>
                       [ConsoleError ["[WA-BOT] Failed to notify group:"; err_message e]]
                   end
          | None => [ClientDestroy; ClientInitialize]
          end,
     Resolved tt).
Proof.
  unfold on_auth_failure, notifyGroup.
  cbv beta iota zeta delta [assign bind ret try_catch get put emit await].
  cbn [groupChatInstance set_clientReady].
  destruct (groupChatInstance st); [| reflexivity]. now destruct notified as [[]|e].
Qed.

Lemma on_disconnected_cases reason notified st :
  on_disconnected reason notified st
  = (set_clientReady false st,
     ConsoleWarn ["[WA-BOT] Disconnected:"; reason]
       :: match groupChatInstance st with
          | Some g =>
              ChatSendMessage (chat_id g)
                "⚠️ WhatsApp terputus. Mencoba menyambung kembali..."
                :: SetTimeout [ClientDestroy; ClientInitialize] 5000
                :: match notified with
                   | Resolved _ => []
                   | Rejected e =>
                       [ConsoleError ["[WA-BOT] Failed to notify group:"; err_message e]]
                   end
          | None => [SetTimeout [ClientDestroy; ClientInitialize] 5000]
          end,
     Resolved tt).
Proof.
  unfold on_disconnected, notifyGroup.
  cbv beta iota zeta delta [assign bind ret try_catch get put emit await].
  cbn [groupChatInstance set_clientReady].
  destruct (groupChatInstance st); [| reflexivity]. now destruct notified as [[]|e].
Qed.

Lemma on_qr_cases qr dataUrl st :
  on_qr qr dataUrl st
  = match dataUrl with
    | Resolved img =>
        (set_latestQR (Some img) st,
         [ToDataURL qr; ConsoleLog ["[WA-BOT] QR code received. Scan via /qr"]],
         Resolved tt)
    | Rejected e => (st, [ToDataURL qr], Rejected e)
    end.
Proof. unfold on_qr. now destruct dataUrl. Qed.

Lemma validate_no_body : Joi.validate msgSchema NoBody = inr Joi.Undefined.
Proof. reflexivity. Qed.

Lemma validated_body_is_object (json : jsval) value :
  Joi.validate msgSchema (Body json) = inr value -> exists fields, value = Joi.Fields fields.
Proof.
  intros [[[=] _] | (o & m & _ & _ & _ & _ & Hcase)]%validate_msgSchema_inr.
  destruct Hcase as [(n & _ & _ & _ & ->) | (g & _ & _ & _ & ->)]; eauto.
Qed.

(** X3. Every HTTP request leaves the module-level variables as they were
    and is answered exactly once, with one exception: [POST /send-message]
    without a body while the adapter is ready.  Validation lets [undefined]
    through, the destructuring of the value stands before the [try] and
    throws, so no answer is written and the handler's promise rejects.  An
    adapter event or an incoming message never writes an HTTP answer. *)
Theorem request_answers ev st :
  (Observe.is_request ev = false -> responses (trace_of (handle ev st)) = [])
  /\ (Observe.is_request ev = true ->
      state_of (handle ev st) = st
      /\ ((exists sent, ev = PostSendMessage NoBody sent) /\ clientReady st = true ->
          trace_of (handle ev st) = []
          /\ outcome_of (handle ev st) = Rejected destructure_undefined)
      /\ (~ ((exists sent, ev = PostSendMessage NoBody sent) /\ clientReady st = true) ->
          length (responses (trace_of (handle ev st))) = 1
          /\ outcome_of (handle ev st) = Resolved tt)).
Proof.
  destruct ev as [qr dataUrl|chats|msg notified|reason notified|msg w| | |info|body sent];
    unfold handle; (split; [intros Hreq | intros Hreq]); try discriminate Hreq.
  - rewrite on_qr_cases. now destruct dataUrl.
  - rewrite on_ready_cases.
    destruct chats as [cs|e]; [destruct (Observe.find_group env cs) |]; reflexivity.
  - rewrite on_auth_failure_cases.
    destruct (groupChatInstance st); [destruct notified as [[]|e] |]; reflexivity.
  - rewrite on_disconnected_cases.
    destruct (groupChatInstance st); [destruct notified as [[]|e] |]; reflexivity.
  - rewrite on_message_cases.
    destruct (msg_fromMe msg); [reflexivity |].
    destruct (w_chat w) as [c|e]; [| reflexivity].
    destruct (Spec.passes_filter env msg c); [| reflexivity].
    rewrite relay_order_cases.
    destruct (extract_order (msg_body msg)) as [orderId|]; [| reflexivity].
    cbn [trace_of fst snd]. rewrite notify_order_cases. cbn [trace_of fst snd].
    destruct (w_post w) as [[]|e]; [destruct (w_confirm w) as [[]|e] |]; reflexivity.
  - rewrite get_qr_cases. split; [reflexivity |].
    split; [intros [[sent [=]] _] | now split].
  - split; [reflexivity |]. split; [intros [[sent [=]] _] | now split].
  - split; [reflexivity |]. split; [intros [[sent [=]] _] | now split].
  - split; [apply state_post_send_message |]. rewrite post_send_message_cases.
    destruct body as [|json].
    + rewrite validate_no_body. destruct (clientReady st).
      * split; [now split |]. intros Hno. exfalso. apply Hno. split; [now exists sent | reflexivity].
      * split; [intros [_ [=]] | now split].
    + split; [intros [[sent' [=]] _] |]. intros _.
      destruct (Joi.validate msgSchema json) as [error|value] eqn:Hvalid; [now split |].
      destruct (clientReady st); [| now split].
      destruct (validated_body_is_object _ _ Hvalid) as [fields ->].
      destruct (resolve_target _ _ _ _ _) as [to|]; [| now split].
      destruct sent as [[]|e]; now split.
Qed.

Lemma validated_message body fields :
  Joi.validate msgSchema body = inr (Joi.Fields fields) ->
  exists o m,
    body = Body (JObj o) /\ Spec.field o "message" = Some (JStr m)
    /\ fields !! "message" = Some m.
Proof.
  intros [[_ [=]] | (o & m & -> & Hm & _ & _ & Hcase)]%validate_msgSchema_inr.
  exists o, m. split; [reflexivity |]. split; [assumption |].
  destruct Hcase as [(n & _ & _ & _ & [= ->]) | (g & _ & _ & _ & [= ->])];
    now rewrite lookup_insert_ne, lookup_insert_eq by discriminate.
Qed.

(** X4. [POST /send-message] hands a message to the adapter exactly when it
    answers 200: then once, to the id that the answer echoes, and with the
    [message] string that validation read from the body (its own key, or the
    key of the object under [__proto__]).  Otherwise either the answer is
    400, 503 or 404 and nothing is dispatched, or the request had no body
    while the adapter was ready and the handler does nothing at all. *)
Theorem dispatch_iff_answered_200 body sent st :
  (Observe.dispatches (trace_of (post_send_message body sent st)) = []
   /\ exists code detail,
        responses (trace_of (post_send_message body sent st))
        = [Spec.error_response code detail]
        /\ (code = 400 \/ code = 503 \/ code = 404))
  \/ (body = NoBody /\ clientReady st = true
      /\ trace_of (post_send_message body sent st) = [])
  \/ (exists o m to,
        body = Body (JObj o) /\ Spec.field o "message" = Some (JStr m)
        /\ Observe.dispatches (trace_of (post_send_message body sent st)) = [(to, Some m)]
        /\ responses (trace_of (post_send_message body sent st)) = [Spec.sent_response to]).
Proof.
  rewrite post_send_message_cases.
  destruct (Joi.validate msgSchema body) as [error|value] eqn:Hvalid.
  { left. split; [reflexivity |]. exists 400, (Joi.message error). auto. }
  destruct (clientReady st).
  2: { left. split; [reflexivity |]. exists 503, "WhatsApp client not ready". auto. }
  destruct value as [|fields].
  { right. left. apply validate_msgSchema_inr in Hvalid as [[-> _] | (o & m & _ & _ & _ & _ & Hcase)];
      [now repeat split |].
    destruct Hcase as [(n & _ & _ & _ & [=]) | (g & _ & _ & _ & [=])]. }
  destruct (resolve_target _ _ _ _ _) as [to|].
  2: { left. split; [reflexivity |].
       exists 404, "Group not cached or unknown groupTitle". auto. }
  right. right. destruct (validated_message _ _ Hvalid) as (o & m & -> & Hm & Hfm).
  exists o, m, to. rewrite fields_lookup, Hfm. destruct sent as [[]|e]; now repeat split.
Qed.

(** X5. A [ready] event that cannot fetch the chat list, or does not find
    the group in it, raises the readiness flag and keeps the group id cached
    before; a request by group title is then answered 200 and dispatched to
    that earlier id. *)
Theorem stale_group_after_ready chats body value g id sent st :
  match chats with
  | Resolved cs => Observe.find_group env cs = None
  | Rejected _ => True
  end ->
  cachedGroupId st = Some id ->
  Js.truthy id = true ->
  Joi.validate msgSchema body = inr value ->
  value !! "groupTitle" = Some g ->
  toLowerCase g = toLowerCase (GROUP_NAME env) ->
  step st (Ready chats) = set_clientReady true st
  /\ post_send_message body sent (step st (Ready chats))
     = (set_clientReady true st,
        [Respond (Spec.sent_response id);
         ClientSendMessage id (value !! "message");
         Spec.dispatch_log id sent],
        Resolved tt).
Proof.
  intros Hchats Hid Htruthy Hvalid Hg Hlower.
  assert (Hstep : step st (Ready chats) = set_clientReady true st).
  { rewrite step_cases, state_on_ready. destruct chats as [cs|e]; [| reflexivity].
    unfold Observe.find_group in Hchats. now rewrite Hchats. }
  split; [exact Hstep |]. rewrite Hstep.
  pose proof (validated_groupTitle_no_number _ _ _ Hvalid Hg) as Hn.
  destruct value as [|fields]; [now rewrite undefined_lookup in Hg |].
  rewrite post_send_message_cases, Hvalid. cbn [clientReady set_clientReady].
  cbv beta iota. rewrite Hn, Hg.
  rewrite resolve_target_groupTitle. cbn [cachedGroupId set_clientReady].
  rewrite bool_decide_eq_true_2 by assumption.
  rewrite Hid. cbn [Js.Boolean andb]. now rewrite Htruthy.
Qed.

(** X6. [auth_failure] destroys and initialises the adapter at once, in that
    order; [disconnected] does neither at once and sets a 5000 ms timer for
    the same two calls.  Each sends its notice to the cached group chat once
    when one is cached and to nobody otherwise, and neither handler fails
    when the notice cannot be sent. *)
Theorem session_loss_restarts msg reason notified st :
  Observe.restarts (trace_of (on_auth_failure msg notified st))
  = [ClientDestroy; ClientInitialize]
  /\ Observe.restarts (trace_of (on_disconnected reason notified st)) = []
  /\ In (SetTimeout [ClientDestroy; ClientInitialize] 5000)
        (trace_of (on_disconnected reason notified st))
  /\ Observe.chat_sends (trace_of (on_auth_failure msg notified st))
     = match groupChatInstance st with
       | Some g => [(chat_id g, "⚠️ Sesi WhatsApp berakhir. Silakan scan ulang QR Code.")]
       | None => []
       end
  /\ Observe.chat_sends (trace_of (on_disconnected reason notified st))
     = match groupChatInstance st with
       | Some g => [(chat_id g, "⚠️ WhatsApp terputus. Mencoba menyambung kembali...")]
       | None => []
       end
  /\ outcome_of (on_auth_failure msg notified st) = Resolved tt
  /\ outcome_of (on_disconnected reason notified st) = Resolved tt.
Proof.
  rewrite on_auth_failure_cases, on_disconnected_cases.
  destruct (groupChatInstance st) as [g|]; [destruct notified as [[]|e] |];
    cbn; repeat split; auto.
Qed.

(** X7. A handler's promise rejects in two cases only: the [qr] handler
    when [toDataURL] rejects (with the same reason, nothing logged, the
    image cached before left in place), and [POST /send-message] for a
    request without a body while the adapter is ready (the [TypeError] of
    the destructuring, nothing answered).  Every other event and request is
    handled to a normal end, whatever the adapter and the API answer. *)
Theorem handlers_that_reject ev st :
  outcome_of (handle ev st)
  = match ev with
    | Qr _ (Rejected e) => Rejected e
    | PostSendMessage NoBody _ =>
        if clientReady st then Rejected destructure_undefined else Resolved tt
    | _ => Resolved tt
    end
  /\ (forall qr e, ev = Qr qr (Rejected e) ->
      state_of (handle ev st) = st /\ trace_of (handle ev st) = [ToDataURL qr])
  /\ (forall sent, ev = PostSendMessage NoBody sent -> clientReady st = true ->
      state_of (handle ev st) = st /\ trace_of (handle ev st) = []).
Proof.
  split; [| split].
  - destruct ev as [qr dataUrl|chats|msg notified|reason notified|msg w| | |info|body sent];
      unfold handle.
    + rewrite on_qr_cases. now destruct dataUrl.
    + now rewrite on_ready_cases.
    + now rewrite on_auth_failure_cases.
    + now rewrite on_disconnected_cases.
    + rewrite on_message_cases. destruct (msg_fromMe msg); [reflexivity |].
      destruct (w_chat w) as [c|e]; [| reflexivity].
      now destruct (Spec.passes_filter env msg c).
    + now rewrite get_qr_cases.
    + reflexivity.
    + reflexivity.
    + rewrite post_send_message_cases. destruct body as [|json].
      * rewrite validate_no_body. now destruct (clientReady st).
      * destruct (Joi.validate msgSchema json) as [error|value] eqn:Hvalid; [reflexivity |].
        destruct (clientReady st); [| reflexivity].
        destruct (validated_body_is_object _ _ Hvalid) as [fields ->].
        now destruct (resolve_target _ _ _ _ _).
  - intros qr e ->. unfold handle. now rewrite on_qr_cases.
  - intros sent -> Hready. unfold handle.
    now rewrite post_send_message_cases, validate_no_body, Hready.
Qed.

(** *** What the message handler sends out *)

Lemma extract_order_digits body ds :
  extract_order body = Some ds -> ds <> "" /\ all_digits ds = true.
Proof.
  rewrite extract_order_find. intros Hfind.
  destruct (find_order_first _ _ Hfind) as (pre & (c & post & _ & _ & Hne & Hds) & _).
  now split.
Qed.

Lemma on_message_trace msg w st :
  trace_of (on_message msg w st)
  = if msg_fromMe msg then []
    else
      match w_chat w with
      | Rejected e =>
          [MsgGetChat;
           ConsoleError ["[WA-BOT] Message handler error:"; err_message e]]
      | Resolved c =>
          if Spec.passes_filter env msg c then
            match extract_order (msg_body msg) with
            | None => [MsgGetChat]
            | Some orderId =>
                MsgGetChat
                  :: ConsoleLog ["→ Detected order ID: " ++ orderId]
                  :: AxiosPost (API_ENDPOINT env) (payload_of env orderId msg)
                  :: match w_post w with
                     | Rejected e => [Spec.api_error_log e]
                     | Resolved _ =>
                         ChatSendMessage (chat_id c) (confirmation orderId)
                           :: match w_confirm w with
                              | Rejected e => [Spec.api_error_log e]
                              | Resolved _ => []
                              end
                     end
            end
          else [MsgGetChat]
      end.
Proof.
  rewrite on_message_cases. destruct (msg_fromMe msg); [reflexivity |].
  destruct (w_chat w) as [c|e]; [| reflexivity].
  destruct (Spec.passes_filter env msg c); [| reflexivity].
  cbn [trace_of fst snd]. rewrite relay_order_cases.
  destruct (extract_order (msg_body msg)) as [orderId|]; [| reflexivity].
  cbn [trace_of fst snd]. now rewrite notify_order_cases.
Qed.

(** X8. The message handler posts to the order API at most once per
    message, and what it posts is well formed: the configured endpoint and
    group name, the message text, time stamp and sender as received, and an
    order id that is the extractor's result on that text, hence a non-empty
    run of digits.  A message written by the bot is never posted. *)
Theorem api_posts_well_formed msg w st url p :
  In (url, p) (Observe.posts (trace_of (on_message msg w st))) ->
  Observe.posts (trace_of (on_message msg w st)) = [(url, p)]
  /\ url = API_ENDPOINT env
  /\ group p = GROUP_NAME env
  /\ message_text p = msg_body msg
  /\ timestamp p = msg_timestamp msg
  /\ sender p = Js.or_else (msg_author msg) (msg_from msg)
  /\ extract_order (msg_body msg) = Some (order_id p)
  /\ order_id p <> "" /\ all_digits (order_id p) = true
  /\ msg_fromMe msg = false.
Proof.
  rewrite on_message_trace.
  destruct (msg_fromMe msg); [intros [] |].
  destruct (w_chat w) as [c|e]; [| intros []].
  destruct (Spec.passes_filter env msg c); [| intros []].
  destruct (extract_order (msg_body msg)) as [orderId|] eqn:Hid; [| intros []].
  destruct (extract_order_digits _ _ Hid) as [Hne Hds].
  assert (Hposts :
    Observe.posts
      (MsgGetChat
         :: ConsoleLog ["→ Detected order ID: " ++ orderId]
         :: AxiosPost (API_ENDPOINT env) (payload_of env orderId msg)
         :: match w_post w with
            | Rejected e => [Spec.api_error_log e]
            | Resolved _ =>
                ChatSendMessage (chat_id c) (confirmation orderId)
                  :: match w_confirm w with
                     | Rejected e => [Spec.api_error_log e]
                     | Resolved _ => []
                     end
            end)
    = [(API_ENDPOINT env, payload_of env orderId msg)]).
  { destruct (w_post w) as [[]|e]; [destruct (w_confirm w) as [[]|e] |]; reflexivity. }
  rewrite Hposts. intros [[= <- <-] | []]. now repeat split.
Qed.

(** X9. The message handler writes to a chat only to confirm an order: at
    most one text per message, sent to the chat the message came from, after
    the POST for the extracted id has succeeded, and holding that id. *)
Theorem confirmation_only_after_post msg w st id text :
  In (id, text) (Observe.chat_sends (trace_of (on_message msg w st))) ->
  exists c orderId r,
    w_chat w = Resolved c /\ id = chat_id c
    /\ Spec.passes_filter env msg c = true
    /\ extract_order (msg_body msg) = Some orderId
    /\ w_post w = Resolved r
    /\ text = "✅ Order ID " ++ orderId ++ " telah diproses."
    /\ Observe.chat_sends (trace_of (on_message msg w st)) = [(id, text)].
Proof.
  rewrite on_message_trace.
  destruct (msg_fromMe msg); [intros [] |].
  destruct (w_chat w) as [c|e]; [| intros []].
  destruct (Spec.passes_filter env msg c) eqn:Hfilter; [| intros []].
  destruct (extract_order (msg_body msg)) as [orderId|] eqn:Hid; [| intros []].
  destruct (w_post w) as [r|e]; [| intros []].
  assert (Hsends :
    Observe.chat_sends
      (MsgGetChat
         :: ConsoleLog ["→ Detected order ID: " ++ orderId]
         :: AxiosPost (API_ENDPOINT env) (payload_of env orderId msg)
         :: ChatSendMessage (chat_id c) (confirmation orderId)
         :: match w_confirm w with
            | Rejected e => [Spec.api_error_log e]
            | Resolved _ => []
            end)
    = [(chat_id c, confirmation orderId)]).
  { destruct (w_confirm w) as [[]|e]; reflexivity. }
  rewrite Hsends. intros [[= <- <-] | []].
  exists c, orderId, r. now repeat split.
Qed.

End SessionProperties.

(** ** The confirmation texts and the order pattern *)

Lemma order_at_not_dD c s :
  mem_ascii c ["d"; "D"]%char = false -> order_at (String c s) = None.
Proof.
  intros Hc. destruct s as [|sl [|d r]]; try reflexivity.
  unfold order_at. now rewrite Hc.
Qed.

Lemma order_at_not_slash c x s :
  Ascii.eqb x "/" = false -> order_at (String c (String x s)) = None.
Proof.
  intros Hx. destruct s as [|d r]; [reflexivity |].
  unfold order_at. now rewrite Hx, andb_false_r.
Qed.

Lemma find_order_skip c s :
  order_at (String c s) = None -> find_order (String c s) = find_order s.
Proof. intros Hat. cbn [find_order]. now rewrite Hat. Qed.

Lemma digit_not_dD c : is_digit c = true -> mem_ascii c ["d"; "D"]%char = false.
Proof.
  intros Hc. destruct (mem_ascii c _) eqn:Hmem; [| reflexivity].
  apply mem_dD in Hmem as [-> | ->]; discriminate Hc.
Qed.

Lemma find_order_digits ds s :
  all_digits ds = true -> find_order (ds ++ s) = find_order s.
Proof.
  induction ds as [|c ds IH]; [reflexivity |].
  cbn [all_digits]. intros [Hc Hds]%andb_true_iff.
  change (String c ds ++ s) with (String c (ds ++ s)).
  rewrite find_order_skip by now apply order_at_not_dD, digit_not_dD.
  now apply IH.
Qed.

Ltac skip_text :=
  repeat (rewrite find_order_skip
           by first [ apply order_at_not_dD; reflexivity
                    | apply order_at_not_slash; reflexivity ]).

(** X13. The confirmation that either listing sends back for an order id
    does not itself hold the order pattern: read as an incoming message it
    yields no order, so a confirmation cannot start a second notification. *)
Theorem confirmation_is_no_order orderId :
  all_digits orderId = true ->
  extract_order (confirmation orderId) = None
  /\ extract_order (Legacy.confirmation orderId) = None.
Proof.
  intros Hds. rewrite !extract_order_find.
  unfold confirmation, Legacy.confirmation. split.
  - change ("✅ Order ID " ++ orderId ++ " telah diproses.")
      with (String "226" (String "156" (String "133" (String " "
             (String "O" (String "r" (String "d" (String "e" (String "r" (String " "
             (String "I" (String "D" (String " "
             (orderId ++ " telah diproses."))))))))))))))%char.
    skip_text. now rewrite find_order_digits.
  - change ("Order dengan ID " ++ orderId ++ " telah sukses.")
      with (String "O" (String "r" (String "d" (String "e" (String "r" (String " "
             (String "d" (String "e" (String "n" (String "g" (String "a" (String "n"
             (String " " (String "I" (String "D" (String " "
             (orderId ++ " telah sukses.")))))))))))))))))%char.
    skip_text. now rewrite find_order_digits.
Qed.

Lemma confirmation_is_no_order_witness :
  extract_order (confirmation "482") = None
  /\ extract_order (Legacy.confirmation "482") = None.
Proof. exact (confirmation_is_no_order "482" eq_refl). Defined.

(** ** The patterns as languages *)

(** X10. The pattern that the schema puts on [number] accepts exactly an
    optional plus sign followed by one or more ASCII digits and nothing
    else: no blanks, no second plus, no sign alone, not the empty string. *)
Theorem number_pattern_language (s : string) :
  Regex.test number_re s = true
  <-> exists ds, ds <> "" /\ all_digits ds = true /\ (s = ds \/ s = String "+" ds).
Proof.
  rewrite test_number_re. unfold number_ok, digits1. split.
  - destruct s as [|c r]; [discriminate |].
    rewrite orb_true_iff, !andb_true_iff, Ascii.eqb_eq, !truthy_iff.
    intros [(-> & Hne & Hds) | [Hne Hds]]; [exists r | exists (String c r)]; auto.
  - intros (ds & Hne & Hds & [-> | ->]).
    + destruct ds as [|c r]; [congruence |].
      rewrite orb_true_iff, !andb_true_iff. right. now split.
    + rewrite orb_true_iff, !andb_true_iff, Ascii.eqb_eq, truthy_iff. left. auto.
Qed.

Lemma append_inj_r (a b suffix : string) : a ++ suffix = b ++ suffix -> a = b.
Proof.
  intros Heq. apply (append_inj_length a suffix b suffix Heq).
  apply (f_equal String.length) in Heq. rewrite !length_append in Heq. lia.
Qed.

(** X11. Two numbers that the schema accepts resolve to the same chat id
    exactly when they are equal or differ by the leading plus sign only. *)
Theorem same_target_iff (n1 n2 : string) :
  Regex.test number_re n1 = true ->
  Regex.test number_re n2 = true ->
  replace_class_g CNonDigit "" n1 ++ "@c.us" = replace_class_g CNonDigit "" n2 ++ "@c.us"
  <-> n1 = n2 \/ n1 = String "+" n2 \/ n2 = String "+" n1.
Proof.
  rewrite !test_number_re, !replace_non_digits.
  intros (ds1 & _ & Hds1 & Hn1 & Ho1)%only_digits_number
         (ds2 & _ & Hds2 & Hn2 & Ho2)%only_digits_number.
  rewrite Ho1, Ho2. split.
  - intros ->%append_inj_r.
    destruct Hn1 as [-> | ->], Hn2 as [-> | ->]; auto.
  - assert (Hplus : forall x, only_digits (String "+" x) = only_digits x)
      by reflexivity.
    intros [Heq | [Heq | Heq]]; f_equal.
    + rewrite <- Ho1, <- Ho2. now rewrite Heq.
    + rewrite <- Ho1, <- Ho2. now rewrite Heq, Hplus.
    + rewrite <- Ho1, <- Ho2. now rewrite Heq, Hplus.
Qed.

Lemma same_target_iff_witness :
  replace_class_g CNonDigit "" "+62812345" ++ "@c.us"
  = replace_class_g CNonDigit "" "62812345" ++ "@c.us"
  <-> "+62812345" = "62812345" \/ "+62812345" = String "+" "62812345"
      \/ "62812345" = String "+" "+62812345".
Proof. exact (same_target_iff "+62812345" "62812345" eq_refl eq_refl). Defined.

(** ** The first listing *)

Section LegacyProperties.

Variable env : environment.
Context `{ObjectKeys}.

Lemma legacy_send_cases body chats sent st :
  Legacy.post_send_message body chats sent st
  = match Joi.validate msgSchema body with
    | inl error => (st, [Respond (Spec.error_response 400 (Joi.message error))], Resolved tt)
    | inr Joi.Undefined => (st, [], Rejected destructure_undefined)
    | inr (Joi.Fields fields) =>
        if Js.Boolean (fields !! "number") then
          let to := replace_class_g CNonDigit "" (default "" (fields !! "number")) ++ "@c.us" in
          (st,
           [ClientSendMessage to (fields !! "message");
            Respond (Observe.legacy_answer to sent)],
           Resolved tt)
        else
          match chats with
          | Rejected e =>
              (st, [GetChats; Respond (Spec.error_response 500 (err_message e))], Resolved tt)
          | Resolved cs =>
              match List.find (fun c => bool_decide (Some (chat_name c) = fields !! "groupTitle")) cs with
              | None =>
                  (st, [GetChats; Respond (Spec.error_response 404 "Group not found")],
                   Resolved tt)
              | Some c =>
                  (st,
                   [GetChats;
                    ClientSendMessage (chat_id c) (fields !! "message");
                    Respond (Observe.legacy_answer (chat_id c) sent)],
                   Resolved tt)
              end
          end
    end.
Proof.
  unfold Legacy.post_send_message.
  destruct (Joi.validate msgSchema body) as [error|[|fields]]; [reflexivity.. |].
  cbv beta iota zeta delta [bind ret try_catch emit await respond].
  destruct (Js.Boolean (fields !! "number")).
  - now destruct sent as [[]|e].
  - destruct chats as [cs|e]; [| reflexivity].
    destruct (List.find _ cs) as [c|]; [| reflexivity].
    now destruct sent as [[]|e].
Qed.

(** X15. In the first listing [/send-message] answers only after the
    dispatch has settled: a request with a body gets one answer, and when a
    message is handed to the adapter the answer follows it and tells how it
    ended, 200 with the target when it was sent and 500 with the error's
    message when it was not.  A request without a body gets no answer: the
    destructuring before the [try] throws and the handler's promise rejects.
    No variable changes in either case. *)
Theorem legacy_answer_follows_dispatch body chats sent st :
  state_of (Legacy.post_send_message body chats sent st) = st
  /\ (body = NoBody ->
      trace_of (Legacy.post_send_message body chats sent st) = []
      /\ outcome_of (Legacy.post_send_message body chats sent st)
         = Rejected destructure_undefined)
  /\ (body <> NoBody ->
      outcome_of (Legacy.post_send_message body chats sent st) = Resolved tt
      /\ length (responses (trace_of (Legacy.post_send_message body chats sent st))) = 1)
  /\ forall to m,
       In (to, m) (Observe.dispatches (trace_of (Legacy.post_send_message body chats sent st))) ->
       exists before,
         trace_of (Legacy.post_send_message body chats sent st)
         = (before ++ [ClientSendMessage to m; Respond (Observe.legacy_answer to sent)])%list
         /\ responses before = [] /\ Observe.dispatches before = [].
Proof.
  rewrite legacy_send_cases. destruct body as [|json].
  { rewrite validate_no_body. repeat split; try congruence. intros to m []. }
  destruct (Joi.validate msgSchema json) as [error|value] eqn:Hvalid.
  { repeat split; try discriminate. intros to m []. }
  destruct (validated_body_is_object _ _ Hvalid) as [fields ->].
  destruct (Js.Boolean (fields !! "number")).
  { repeat split; try discriminate. intros to m [[= <- <-] | []]. now exists []. }
  destruct chats as [cs|e]; [| repeat split; try discriminate; intros to m []].
  destruct (List.find _ cs) as [c|]; [| repeat split; try discriminate; intros to m []].
  repeat split; try discriminate. intros to m [[= <- <-] | []]. now exists [GetChats].
Qed.

(** X16. In the first listing a request by group title asks the adapter for
    its chat list and takes the first chat whose name is exactly the title
    given (any group, letter case included); without such a chat the answer
    is 404, and when the list cannot be fetched it is 500, in both cases
    with nothing dispatched. *)
Theorem legacy_group_lookup body value g chats sent st :
  Joi.validate msgSchema body = inr value ->
  value !! "groupTitle" = Some g ->
  trace_of (Legacy.post_send_message body chats sent st)
  = GetChats
      :: match chats with
         | Rejected e => [Respond (Spec.error_response 500 (err_message e))]
         | Resolved cs =>
             match List.find (fun c => String.eqb (chat_name c) g) cs with
             | None => [Respond (Spec.error_response 404 "Group not found")]
             | Some c =>
                 [ClientSendMessage (chat_id c) (value !! "message");
                  Respond (Observe.legacy_answer (chat_id c) sent)]
             end
         end.
Proof.
  intros Hvalid Hg.
  pose proof (validated_groupTitle_no_number _ _ _ Hvalid Hg) as Hn.
  destruct value as [|fields]; [now rewrite undefined_lookup in Hg |].
  rewrite fields_lookup in Hn, Hg.
  rewrite legacy_send_cases, Hvalid, Hn, Hg.
  cbn [Js.Boolean]. destruct chats as [cs|e]; [| reflexivity].
  assert (Hfind : List.find (fun c => bool_decide (Some (chat_name c) = Some g)) cs
                  = List.find (fun c => String.eqb (chat_name c) g) cs).
  { induction cs as [|c cs IH]; [reflexivity |]. cbn [List.find]. rewrite IH.
    destruct (String.eqb_spec (chat_name c) g) as [Heq | Hne].
    - now rewrite bool_decide_eq_true_2 by congruence.
    - now rewrite bool_decide_eq_false_2 by congruence. }
  rewrite Hfind.
  destruct (List.find (fun c => String.eqb (chat_name c) g) cs); reflexivity.
Qed.

Lemma legacy_on_ready_state chats st :
  state_of (Legacy.on_ready env chats st)
  = match chats with
    | Resolved cs => set_groupChatInstance (Observe.find_group env cs) st
    | Rejected _ => st
    end.
Proof.
  unfold Legacy.on_ready, Observe.find_group.
  cbv beta iota zeta delta [assign bind ret try_catch get put emit await state_of fst snd].
  destruct chats as [cs|e]; [| reflexivity].
  cbn [groupChatInstance set_groupChatInstance].
  now destruct (List.find _ cs).
Qed.

(** X17. After [ready] has fetched the chat list, the first listing holds
    the first chat with the configured name, or nothing when there is none:
    a handle cached earlier is dropped.  The second listing, when the group
    is missing, keeps the handle and the id cached earlier. *)
Theorem ready_refreshes_group cs st :
  groupChatInstance (state_of (Legacy.on_ready env (Resolved cs) st))
  = Observe.find_group env cs
  /\ (Observe.find_group env cs = None ->
      groupChatInstance (state_of (on_ready env (Resolved cs) st)) = groupChatInstance st
      /\ cachedGroupId (state_of (on_ready env (Resolved cs) st)) = cachedGroupId st).
Proof.
  split.
  - now rewrite legacy_on_ready_state.
  - intros Hfind. rewrite state_on_ready. unfold Observe.find_group in Hfind.
    now rewrite Hfind.
Qed.

Lemma legacy_on_message_trace msg w st :
  Legacy.on_message env msg w st
  = (st,
     if msg_fromMe msg then []
     else
       match w_chat w with
       | Rejected e =>
           [MsgGetChat;
            ConsoleError ["Error processing incoming message:"; err_message e]]
       | Resolved c =>
           if Spec.passes_filter env msg c then
             match extract_order (msg_body msg) with
             | None => [MsgGetChat]
             | Some orderId =>
                 MsgGetChat
                   :: ConsoleLog ["→ Found orderId: " ++ orderId]
                   :: AxiosPost (API_ENDPOINT env) (payload_of env orderId msg)
                   :: match w_post w with
                      | Rejected e =>
                          [ConsoleError ["API Error:";
                                         Js.or_else (err_response_message e) (err_message e)]]
                      | Resolved _ =>
                          ChatSendMessage (chat_id c) (Legacy.confirmation orderId)
                            :: match w_confirm w with
                               | Rejected e =>
                                   [ConsoleError ["Error processing incoming message:";
                                                  err_message e]]
                               | Resolved _ => []
                               end
                      end
             end
           else [MsgGetChat]
       end,
     Resolved tt).
Proof.
  unfold Legacy.on_message, Spec.passes_filter.
  destruct (msg_fromMe msg); [reflexivity |].
  cbv beta iota zeta delta [bind ret try_catch emit await].
  destruct (w_chat w) as [c|e]; [| reflexivity].
  destruct (chat_isGroup c); cbn [negb orb andb]; [| reflexivity].
  destruct (String.eqb (chat_name c) (GROUP_NAME env)); cbn [negb]; [| reflexivity].
  destruct (extract_order (msg_body msg)) as [orderId|]; [| reflexivity].
  destruct (w_post w) as [[]|e]; [| reflexivity].
  now destruct (w_confirm w) as [[]|e].
Qed.

(** X18. Both listings treat an incoming message alike towards the outside:
    for every message and every answer of the adapter and the API they post
    the same notifications to the order API and confirm to the same chats;
    neither changes a variable or fails.  Only the wording of the
    confirmation and of the log lines differs. *)
Theorem listings_relay_alike msg w st :
  Observe.posts (trace_of (Legacy.on_message env msg w st))
  = Observe.posts (trace_of (on_message env msg w st))
  /\ map fst (Observe.chat_sends (trace_of (Legacy.on_message env msg w st)))
     = map fst (Observe.chat_sends (trace_of (on_message env msg w st)))
  /\ Legacy.on_message env msg w st
     = (st, trace_of (Legacy.on_message env msg w st), Resolved tt)
  /\ on_message env msg w st
     = (st, trace_of (on_message env msg w st), Resolved tt).
Proof.
  rewrite legacy_on_message_trace, on_message_cases.
  destruct (msg_fromMe msg); [now repeat split |].
  destruct (w_chat w) as [c|e]; [| now repeat split].
  destruct (Spec.passes_filter env msg c); [| now repeat split].
  rewrite relay_order_cases.
  destruct (extract_order (msg_body msg)) as [orderId|]; [| now repeat split].
  cbn [trace_of fst snd]. rewrite notify_order_cases. cbn [trace_of fst snd].
  destruct (w_post w) as [[]|e]; [| now repeat split].
  destruct (w_confirm w) as [[]|e]; now repeat split.
Qed.

Lemma legacy_on_auth_failure_cases msg notified st :
  Legacy.on_auth_failure msg notified st
  = (st,
     (ConsoleError ["AUTH FAILURE:"; msg]
        :: match groupChatInstance st with
           | Some g =>
               ChatSendMessage (chat_id g)
                 "⚠️ Sesi WhatsApp telah berakhir. Silakan scan ulang QR Code."
                 :: match notified with
                    | Resolved _ => []
                    | Rejected e =>
                        [ConsoleError ["Failed to notify group on auth failure:";
                                       err_message e]]
                    end
           | None => []
           end)
       ++ [ClientDestroy; ClientInitialize],
     Resolved tt)%list.
Proof.
  unfold Legacy.on_auth_failure.
  cbv beta iota zeta delta [bind ret try_catch get emit await].
  destruct (groupChatInstance st); [| reflexivity]. now destruct notified as [[]|e].
Qed.

Lemma legacy_on_disconnected_cases reason notified st :
  Legacy.on_disconnected reason notified st
  = (st,
     (ConsoleWarn ["WhatsApp disconnected:"; reason]
        :: match groupChatInstance st with
           | Some g =>
               ChatSendMessage (chat_id g)
                 "⚠️ WhatsApp terputus. Mencoba menyambung kembali..."
                 :: match notified with
                    | Resolved _ => []
                    | Rejected e =>
                        [ConsoleError ["Failed to notify group on disconnected:";
                                       err_message e]]
                    end
           | None => []
           end)
       ++ [SetTimeout [ClientDestroy; ClientInitialize] 5000],
     Resolved tt)%list.
Proof.
  unfold Legacy.on_disconnected.
  cbv beta iota zeta delta [bind ret try_catch get emit await].
  destruct (groupChatInstance st); [| reflexivity]. now destruct notified as [[]|e].
Qed.

(** X19. The first listing waits for the notice to the group before it
    restarts the adapter: in its [auth_failure] handler the two restart
    calls, and in its [disconnected] handler the timer, come last, after the
    notice and the log of its failure.  The second listing does not wait:
    when the notice fails, its failure is logged after the restart calls. *)
Theorem restart_waits_for_notice msg reason notified st :
  (exists before,
     trace_of (Legacy.on_auth_failure msg notified st)
     = (before ++ [ClientDestroy; ClientInitialize])%list
     /\ Observe.restarts before = []
     /\ Observe.chat_sends before
        = Observe.chat_sends (trace_of (Legacy.on_auth_failure msg notified st)))
  /\ (exists before,
        trace_of (Legacy.on_disconnected reason notified st)
        = (before ++ [SetTimeout [ClientDestroy; ClientInitialize] 5000])%list
        /\ Observe.chat_sends before
           = Observe.chat_sends (trace_of (Legacy.on_disconnected reason notified st)))
  /\ (forall g e,
        groupChatInstance st = Some g -> notified = Rejected e ->
        exists before,
          trace_of (on_auth_failure msg notified st)
          = (before ++ [ClientDestroy; ClientInitialize;
                        ConsoleError ["[WA-BOT] Failed to notify group:"; err_message e]])%list
          /\ Observe.restarts before = []).
Proof.
  rewrite legacy_on_auth_failure_cases, legacy_on_disconnected_cases.
  cbn [trace_of fst snd]. split; [| split].
  - eexists. split; [reflexivity |].
    destruct (groupChatInstance st); [destruct notified as [[]|e] |]; now split.
  - eexists. split; [reflexivity |].
    destruct (groupChatInstance st); [destruct notified as [[]|e] |]; reflexivity.
  - intros g e Hg ->. rewrite on_auth_failure_cases, Hg. cbn [trace_of fst snd].
    now exists [ConsoleError ["[WA-BOT] AUTH FAILURE:"; msg];
                ChatSendMessage (chat_id g)
                  "⚠️ Sesi WhatsApp berakhir. Silakan scan ulang QR Code."].
Qed.

End LegacyProperties.

(** ** The further properties at concrete inputs *)

Lemma stale_group_after_ready_witness :
  step Sample.env Sample.lower (set_clientReady false Sample.ready_state)
       (Ready (Resolved [Sample.other_chat]))
  = Sample.ready_state
  /\ post_send_message Sample.env Sample.lower
       (JObj {[ "groupTitle" := JStr "Web Cungs"; "message" := JStr "hi" ]})
       (Resolved tt)
       (step Sample.env Sample.lower (set_clientReady false Sample.ready_state)
             (Ready (Resolved [Sample.other_chat])))
     = (Sample.ready_state,
        [Respond (Spec.sent_response "120363025246125888@g.us");
         ClientSendMessage "120363025246125888@g.us" (Some "hi");
         ConsoleLog ["✅ Message sent to 120363025246125888@g.us"]],
        Resolved tt).
Proof.
  exact (stale_group_after_ready Sample.env Sample.lower
           (Resolved [Sample.other_chat])
           (JObj {[ "groupTitle" := JStr "Web Cungs"; "message" := JStr "hi" ]})
           (Joi.Fields (<["groupTitle" := "Web Cungs"]> (<["message" := "hi"]> ∅)))
           "Web Cungs" "120363025246125888@g.us" (Resolved tt)
           (set_clientReady false Sample.ready_state)
           eq_refl eq_refl eq_refl eq_refl eq_refl eq_refl).
Defined.

Lemma api_posts_well_formed_witness :
  Observe.posts
    (trace_of (on_message Sample.env Sample.order_message
                 (MessageWorld (Resolved Sample.group_chat) (Resolved tt) (Resolved tt))
                 Sample.ready_state))
  = [("http://localhost:8000/api/orders/mark-as-done",
      OrderNotification "482" "WEB CUNGS" "628111222333@c.us"
                        "Please confirm d/482 thanks" 1700000000%N)].
Proof.
  exact (proj1 (api_posts_well_formed Sample.env Sample.order_message
                  (MessageWorld (Resolved Sample.group_chat) (Resolved tt) (Resolved tt))
                  Sample.ready_state
                  "http://localhost:8000/api/orders/mark-as-done"
                  (OrderNotification "482" "WEB CUNGS" "628111222333@c.us"
                                     "Please confirm d/482 thanks" 1700000000%N)
                  (or_introl eq_refl))).
Defined.

Lemma confirmation_only_after_post_witness :
  exists c orderId r,
    Resolved Sample.group_chat = Resolved c
    /\ "120363025246125888@g.us" = chat_id c
    /\ Spec.passes_filter Sample.env Sample.order_message c = true
    /\ extract_order "Please confirm d/482 thanks" = Some orderId
    /\ Resolved tt = Resolved r
    /\ "✅ Order ID 482 telah diproses." = "✅ Order ID " ++ orderId ++ " telah diproses."
    /\ Observe.chat_sends
         (trace_of (on_message Sample.env Sample.order_message
                      (MessageWorld (Resolved Sample.group_chat) (Resolved tt)
                                    (Rejected Sample.network_error))
                      Sample.ready_state))
       = [("120363025246125888@g.us", "✅ Order ID 482 telah diproses.")].
Proof.
  exact (confirmation_only_after_post Sample.env Sample.order_message
           (MessageWorld (Resolved Sample.group_chat) (Resolved tt)
                         (Rejected Sample.network_error))
           Sample.ready_state
           "120363025246125888@g.us" "✅ Order ID 482 telah diproses."
           (or_introl eq_refl)).
Defined.

Lemma legacy_group_lookup_witness :
  trace_of (Legacy.post_send_message
              (JObj {[ "groupTitle" := JStr "Family"; "message" := JStr "hi" ]})
              (Resolved [Sample.group_chat; Sample.other_chat])
              (Rejected Sample.network_error) initial_state)
  = [GetChats;
     ClientSendMessage "120363999999999999@g.us" (Some "hi");
     Respond (Spec.error_response 500 "connect ECONNREFUSED 127.0.0.1:8000")].
Proof.
  exact (legacy_group_lookup
           (JObj {[ "groupTitle" := JStr "Family"; "message" := JStr "hi" ]})
           (Joi.Fields (<["groupTitle" := "Family"]> (<["message" := "hi"]> ∅)))
           "Family" (Resolved [Sample.group_chat; Sample.other_chat])
           (Rejected Sample.network_error) initial_state eq_refl eq_refl).
Defined.

(** ** The digit filter *)

Lemma only_digits_all (s : string) : all_digits (only_digits s) = true.
Proof.
  induction s as [|c s IH]; [reflexivity |]. cbn [only_digits].
  destruct (is_digit c) eqn:Hc; [| exact IH]. cbn [all_digits]. now rewrite Hc.
Qed.

Lemma only_digits_append (a b : string) :
  only_digits (a ++ b) = only_digits a ++ only_digits b.
Proof.
  induction a as [|c a IH]; [reflexivity |].
  change (String c a ++ b) with (String c (a ++ b)). cbn [only_digits].
  destruct (is_digit c); [| exact IH].
  change (String c (only_digits a) ++ only_digits b)
    with (String c (only_digits a ++ only_digits b)).
  now rewrite IH.
Qed.

(** X20. [number.replace(/\D/g, "")] keeps the digits of any string in their
    order and drops everything else: the result holds digits only, a second
    pass changes nothing, a string of digits comes back as it is, and the
    result for a concatenation is the concatenation of the results. *)
Theorem strip_non_digits_filter (a b : string) :
  all_digits (replace_class_g CNonDigit "" a) = true
  /\ replace_class_g CNonDigit "" (replace_class_g CNonDigit "" a)
     = replace_class_g CNonDigit "" a
  /\ (all_digits a = true -> replace_class_g CNonDigit "" a = a)
  /\ replace_class_g CNonDigit "" (a ++ b)
     = replace_class_g CNonDigit "" a ++ replace_class_g CNonDigit "" b.
Proof.
  rewrite !replace_non_digits. split; [apply only_digits_all |]. split; [| split].
  - apply only_digits_id, only_digits_all.
  - apply only_digits_id.
  - apply only_digits_append.
Qed.
